(** * vscode-iconify: icon-set loading, alias resolution and caching

    A shallow embedding of [src/utils/svgs.ts] (the helpers [toDataUrl] and
    [pathToSvg], and the loader with [UniqPromise], [clearCache],
    [LoadIconSet], [normalizeIcon], [mergeAlias], [resolveIconData],
    [getIconInfo] and [getDataURL]).

    Conventions of the embedding.
    - A JavaScript [number] used as a length or a ratio is an IEEE-754
      binary64 value: the kernel's primitive [float].  The [rotate] field is a
      count of quarter turns; it is an integer [Z], and the operator [%] on
      integers is the truncated remainder [Z.rem] (sign of the dividend).
    - An optional property is an [option]; [undefined] and a missing property
      are both [None].  A property holding an object is truthy.
    - A JSON object used as a dictionary is a [gmap string _] over its own
      keys.  A plain object also answers for the few names that every object
      inherits ([constructor], [toString], ...; see [inherited]); on every
      other name the lookups of the code are the lookups of the map, and a
      statement that would not hold at an inherited name says
      [inherited k = false].  One assignment of the code is not guarded by a
      lookup of the same key: [loadedIconSets[iconSetId] = cached] in
      [migrateCache].  Under the key [__proto__] it makes that icon set the
      prototype of the dictionary, which then answers for the properties of
      the icon set as well; a statement about a lookup in [loadedIconSets]
      that would not hold then says that the map has no entry
      [__proto__].
    - A file of the cache folder is represented by what [JSON.parse] makes of
      it; what is written is [JSON.stringify] of an icon set, which is read
      back as [json_roundtrip] of that icon set.
    - The module-level variables ([_tasks], [loadedIconSets], [dataURLCache])
      and the host's storage form an explicit state that every operation
      takes and returns.  Asynchronous functions are run to completion, one
      at a time: a promise stored in [_tasks] is represented by the way it
      settled. *)

From Stdlib Require Import ZArith String Ascii.
From Corelib Require Import PrimFloat.
From stdpp Require Import gmap strings list fin_maps.

Open Scope Z_scope.
Open Scope string_scope.

(** ** JavaScript values *)

Definition Number := float.

(** [Boolean(x)] for a number: [0], [-0] and [NaN] are falsy. *)
Definition truthy_number (x : Number) : bool :=
  negb (is_zero x || is_nan x).

(** [Boolean(s)] for a string: only the empty string is falsy. *)
Definition truthy_string (s : string) : bool :=
  negb (String.eqb s "").

(** [a ?? b] where [b] may itself be missing. *)
Definition nullish {A} (a b : option A) : option A :=
  match a with
  | Some _ => a
  | None => b
  end.

(** [a ?? d] with a default that is always present. *)
Definition nullish_or {A} (a : option A) (d : A) : A :=
  match a with
  | Some x => x
  | None => d
  end.

(** [a !== b] on optional booleans: [undefined], [false] and [true] are three
    distinct values for strict equality. *)
Definition strict_neq (a b : option bool) : bool :=
  match a, b with
  | None, None => false
  | Some x, Some y => xorb x y
  | _, _ => true
  end.

(** The property names that a plain object inherits from
    [Object.prototype]: [obj[k]] finds a truthy value at each of them even
    when [k] is not a key of [obj]. *)
Definition Object_prototype_names : list string :=
  ["constructor"; "__defineGetter__"; "__defineSetter__"; "hasOwnProperty";
   "__lookupGetter__"; "__lookupSetter__"; "isPrototypeOf";
   "propertyIsEnumerable"; "toString"; "valueOf"; "__proto__";
   "toLocaleString"].

Definition inherited (k : string) : bool :=
  bool_decide (k ∈ Object_prototype_names).

(** The flag that a possibly missing boolean stands for. *)
Definition flag (f : option bool) : bool := nullish_or f false.

(** ** Icon sets ([@iconify/types]) *)

(** [IconifyOptional]: the geometry and the transformations shared by icons
    and aliases. *)
Record IconifyOptional := mkOptional {
  left : option Number;
  top : option Number;
  width : option Number;
  height : option Number;
  rotate : option Z;
  hFlip : option bool;
  vFlip : option bool;
}.

Record IconifyIcon := mkIcon {
  body : string;
  icon_props :> IconifyOptional;
}.

Record IconifyAlias := mkAlias {
  parent : string;
  alias_props :> IconifyOptional;
}.

Record IconifyJSON := mkJSON {
  prefix : string;
  icons : gmap string IconifyIcon;
  aliases : gmap string IconifyAlias;
  set_left : option Number;
  set_top : option Number;
  set_width : option Number;
  set_height : option Number;
}.

(** Assignments to one property of an icon. *)
Definition with_left (v : option Number) (i : IconifyIcon) : IconifyIcon :=
  mkIcon (body i) (mkOptional v (top i) (width i) (height i) (rotate i) (hFlip i) (vFlip i)).
Definition with_top (v : option Number) (i : IconifyIcon) : IconifyIcon :=
  mkIcon (body i) (mkOptional (left i) v (width i) (height i) (rotate i) (hFlip i) (vFlip i)).
Definition with_width (v : option Number) (i : IconifyIcon) : IconifyIcon :=
  mkIcon (body i) (mkOptional (left i) (top i) v (height i) (rotate i) (hFlip i) (vFlip i)).
Definition with_height (v : option Number) (i : IconifyIcon) : IconifyIcon :=
  mkIcon (body i) (mkOptional (left i) (top i) (width i) v (rotate i) (hFlip i) (vFlip i)).
Definition with_rotate (v : option Z) (i : IconifyIcon) : IconifyIcon :=
  mkIcon (body i) (mkOptional (left i) (top i) (width i) (height i) v (hFlip i) (vFlip i)).
Definition with_hFlip (v : option bool) (i : IconifyIcon) : IconifyIcon :=
  mkIcon (body i) (mkOptional (left i) (top i) (width i) (height i) (rotate i) v (vFlip i)).
Definition with_vFlip (v : option bool) (i : IconifyIcon) : IconifyIcon :=
  mkIcon (body i) (mkOptional (left i) (top i) (width i) (height i) (rotate i) (hFlip i) v).

(** ** [JSON.parse(JSON.stringify(data))]

    A number is written in decimal and read back unchanged, except that [-0]
    is written as [0] and that [NaN] and the infinities are written as
    [null], which every reader of this file treats as a missing value
    ([??] and [!= null]). *)
Definition json_number (x : option Number) : option Number :=
  match x with
  | Some v =>
    if is_nan v || is_infinity v then None
    else if is_zero v then Some 0%float
    else Some v
  | None => None
  end.

Definition json_optional (o : IconifyOptional) : IconifyOptional :=
  mkOptional (json_number (left o)) (json_number (top o))
    (json_number (width o)) (json_number (height o))
    (rotate o) (hFlip o) (vFlip o).

Definition json_icon (i : IconifyIcon) : IconifyIcon :=
  mkIcon (body i) (json_optional i).

Definition json_alias (a : IconifyAlias) : IconifyAlias :=
  mkAlias (parent a) (json_optional a).

Definition json_roundtrip (data : IconifyJSON) : IconifyJSON :=
  mkJSON (prefix data) (json_icon <$> icons data) (json_alias <$> aliases data)
    (json_number (set_left data)) (json_number (set_top data))
    (json_number (set_width data)) (json_number (set_height data)).

(** ** [normalizeIcon] *)

Definition normalizeIcon (icon : IconifyIcon) (data : IconifyJSON) : IconifyIcon :=
  let normalized := icon in
  let normalized :=
    with_left (Some (nullish_or (nullish (left normalized) (set_left data)) 0%float)) normalized in
  let normalized :=
    with_top (Some (nullish_or (nullish (top normalized) (set_top data)) 0%float)) normalized in
  let normalized :=
    with_width (Some (nullish_or (nullish (width normalized) (set_width data)) 16%float)) normalized in
  let normalized :=
    with_height (Some (nullish_or (nullish (height normalized) (set_height data)) 16%float)) normalized in
  match rotate normalized with
  | Some r => if negb (r =? 0)%Z then with_rotate (Some (Z.rem r 4)) normalized else normalized
  | None => normalized
  end.

(** ** [mergeAlias] *)

Definition mergeAlias (parent : IconifyIcon) (alias : IconifyAlias) : IconifyIcon :=
  let merged := parent in
  let merged := if left alias is Some _ then with_left (left alias) merged else merged in
  let merged := if top alias is Some _ then with_top (top alias) merged else merged in
  let merged := if width alias is Some _ then with_width (width alias) merged else merged in
  let merged := if height alias is Some _ then with_height (height alias) merged else merged in
  let parentRotate := nullish_or (rotate parent) 0 in
  let aliasRotate := nullish_or (rotate alias) 0 in
  let rotate := Z.rem (parentRotate + aliasRotate) 4 in
  let merged :=
    if negb (rotate =? 0)%Z then with_rotate (Some rotate) merged
    else with_rotate None merged in
  let hFlip := strict_neq (hFlip parent) (hFlip alias) in
  let merged :=
    if hFlip then with_hFlip (Some true) merged else with_hFlip None merged in
  let vFlip := strict_neq (vFlip parent) (vFlip alias) in
  let merged :=
    if vFlip then with_vFlip (Some true) merged else with_vFlip None merged in
  merged.

(** ** [resolveIconData]

    The closure [resolve] shares the set [visited].  The set is kept as the
    list of its elements in insertion order; [visited.add(key)] is reached
    only after [visited.has(key)] answered [false], where it appends [key].
    The recursion is bounded by [fuel]; the outer [None] of the result means
    that the fuel ran out, [Some None] is the value [null]. *)

Fixpoint resolve (data : IconifyJSON) (fuel : nat) (key : string)
    (visited : list string) : option (option IconifyIcon) * list string :=
  match fuel with
  | O => (None, visited)
  | S fuel =>
    if bool_decide (key ∈ visited) then (Some None, visited)
    else
      let visited := (visited ++ [key])%list in
      match icons data !! key with
      | Some icon => (Some (Some (normalizeIcon icon data)), visited)
      | None =>
        match aliases data !! key with
        | None => (Some None, visited)
        | Some alias =>
          match resolve data fuel (parent alias) visited with
          | (None, visited) => (None, visited)
          | (Some None, visited) => (Some None, visited)
          | (Some (Some parent), visited) =>
            (Some (Some (normalizeIcon (mergeAlias parent alias) data)), visited)
          end
        end
      end
  end.

(** Every recursive call consumes an alias that was not visited before, so
    one more than the number of aliases is enough fuel ([resolve_fuel_enough]
    below). *)
Definition resolve_fuel (data : IconifyJSON) : nat := S (size (aliases data)).

Definition resolveIconData (data : IconifyJSON) (name : string) : option IconifyIcon :=
  match fst (resolve data (resolve_fuel data) name []) with
  | Some r => r
  | None => None
  end.

(** The names that [resolve] went through, in order. *)
Definition resolutionPath (data : IconifyJSON) (name : string) : list string :=
  snd (resolve data (resolve_fuel data) name []).

(** The name that [resolve] moves on to from [key]: the parent of the
    alias [key], unless an icon of that name takes precedence. *)
Definition alias_step (data : IconifyJSON) (key : string) : option string :=
  match icons data !! key with
  | Some _ => None
  | None => parent <$> aliases data !! key
  end.

(** [cycle] is a cyclic alias chain of [data]: every name is an alias whose
    parent is the next name of the list, and the parent of the last is the
    first.  Nothing is asked of [icons]. *)
Definition alias_cycle (data : IconifyJSON) (cycle : list string) : bool :=
  forallb (fun '(k, k') => bool_decide (parent <$> aliases data !! k = Some k'))
    (zip cycle (list.rotate 1%nat cycle)).

(** The aliases that were not visited yet: the measure that bounds the
    recursion of [resolve]. *)
Definition pending (data : IconifyJSON) (visited : list string) : gset string :=
  dom (aliases data) ∖ list_to_set visited.

(** ** Promises and the request deduplicator

    A promise that has settled is either fulfilled with a value or rejected
    with an error; [await] returns the value or throws the error. *)

Inductive Settled (T E : Type) : Type :=
| Fulfilled (v : T)
| Rejected (e : E).
Arguments Fulfilled {T E} v.
Arguments Rejected {T E} e.

Section Deduplicator.
Context {T E W : Type}.

(** The module-level map [_tasks] next to the rest of the process state.
    A factory works on the rest only: it has no access to [_tasks]. *)
Record Dedup := mkDedup {
  _tasks : gmap string (Settled T E);
  rest : W;
}.

Definition Factory := string -> W -> Settled T E * W.

(** A stored promise is an object, hence truthy: for a key that is not
    [inherited], [!_tasks[id]] holds exactly when the key is missing. *)
Definition UniqPromise (fn : Factory) (id : string) (s : Dedup)
    : Settled T E * Dedup :=
  match _tasks s !! id with
  | Some p => (p, s)
  | None =>
    let '(p, w) := fn id (rest s) in
    (p, mkDedup (<[id := p]> (_tasks s)) w)
  end.

Definition deleteTask (id : string) (s : Dedup) : bool * Dedup :=
  (true, mkDedup (delete id (_tasks s)) (rest s)).
End Deduplicator.
Arguments Dedup : clear implicits.
Arguments Factory : clear implicits.

(** ** The host: storage, network and configuration *)

Inductive Error : Type :=
| FileNotFound
| NoPermissions
| FetchError.

(** What [JSON.parse] makes of a file of the cache folder.  [IconSetFile]
    is a truthy value, which [LoadIconSet] serves without looking into it:
    an icon set, as the return type of [loadCache] promises; a file that
    holds something else (a number, a string, an array) is served all the
    same, and is to the functions of this file an icon set without icons,
    aliases or lengths.  [CorruptFile] is nothing that counts: the file
    cannot be read as JSON, or it holds a falsy value such as [null]. *)
Inductive FileContent : Type :=
| IconSetFile (data : IconifyJSON)
| CorruptFile.

Inductive LogEntry : Type :=
| InfoCleared
| InfoMigrated (iconSetId : string)
| InfoLoadedFromDisk (id : string)
| InfoDownloading (id url : string)
| InfoDownloaded (id : string)
| LogError (e : Error) (prompt : bool).

(** Everything the loader reads and writes besides [_tasks].
    - [cacheDir] is the folder [icon-set-cache] of the global storage, one
      file [{id}.json] per icon set, indexed here by [id]; [None] when the
      folder does not exist.
    - [readOnly] tells whether the storage refuses modifications.
    - [globalState] is the legacy key-value store [ctx.globalState]. *)
Record World := mkWorld {
  loadedIconSets : gmap string IconifyJSON;
  dataURLCache : gmap string string;
  globalState : gmap string IconifyJSON;
  cacheDir : option (gmap string FileContent);
  readOnly : bool;
  logged : list LogEntry;
}.

Definition with_loadedIconSets (m : gmap string IconifyJSON) (w : World) : World :=
  mkWorld m (dataURLCache w) (globalState w) (cacheDir w) (readOnly w) (logged w).
Definition with_dataURLCache (m : gmap string string) (w : World) : World :=
  mkWorld (loadedIconSets w) m (globalState w) (cacheDir w) (readOnly w) (logged w).
Definition with_globalState (m : gmap string IconifyJSON) (w : World) : World :=
  mkWorld (loadedIconSets w) (dataURLCache w) m (cacheDir w) (readOnly w) (logged w).
Definition with_cacheDir (d : option (gmap string FileContent)) (w : World) : World :=
  mkWorld (loadedIconSets w) (dataURLCache w) (globalState w) d (readOnly w) (logged w).
Definition Log (e : LogEntry) (w : World) : World :=
  mkWorld (loadedIconSets w) (dataURLCache w) (globalState w) (cacheDir w) (readOnly w)
    (logged w ++ [e])%list.

(** [workspace.fs] on the cache folder.  Reading what does not exist throws
    [FileNotFound]; writing creates the missing parent folder; the recursive
    deletion removes the folder with all its files and has nothing to do,
    and nothing to complain about, when the folder is missing; a storage
    that refuses modifications throws [NoPermissions]. *)
Definition fs_readFile (iconSetId : string) (w : World) : Error + FileContent :=
  match cacheDir w with
  | Some files =>
    match files !! iconSetId with
    | Some c => inr c
    | None => inl FileNotFound
    end
  | None => inl FileNotFound
  end.

Definition fs_writeFile (iconSetId : string) (c : FileContent) (w : World) : Error + World :=
  if readOnly w then inl NoPermissions
  else inr (with_cacheDir (Some (<[iconSetId := c]> (nullish_or (cacheDir w) ∅))) w).

Definition fs_delete_cacheDir (w : World) : Error + World :=
  match cacheDir w with
  | None => inr w
  | Some _ => if readOnly w then inl NoPermissions else inr (with_cacheDir None w)
  end.

(** The file of an icon set, when the folder and the file exist. *)
Definition stored_file (iconSetId : string) (w : World) : option FileContent :=
  match cacheDir w with
  | Some files => files !! iconSetId
  | None => None
  end.

(** The collaborators that are imported from outside this file. *)
Record SVGResult := mkSVG {
  svg_attributes : list (string * string);
  svg_body : string;
}.

Record Env := mkEnv {
  (* ./config *)
  customCollections : list IconifyJSON;
  cdnEntry : string;
  customAliasesOnly : bool;
  enabledAliases : gmap string string;
  color : string;
  parseIcon : string -> option (string * string);
  (* ofetch: [None] when the request rejects *)
  fetch : string -> option IconifyJSON;
  (* ./base64, @iconify/utils and the conversion of a number to a string *)
  Base64_encode : string -> string;
  iconToSVG : string -> IconifyOptional -> string -> SVGResult;
  numberToString : Number -> string;
}.

Definition State := Dedup (option IconifyJSON) Error World.

(** ** [toDataUrl] and [pathToSvg] *)

Definition toDataUrl (env : Env) (str : string) : string :=
  "data:image/svg+xml;base64," ++ Base64_encode env str.

Record IconInfo := mkInfo {
  info_body : string;
  info_left : option Number;
  info_top : option Number;
  info_width : Number;
  info_height : Number;
  info_rotate : option Z;
  info_hFlip : option bool;
  info_vFlip : option bool;
  info_key : string;
  info_ratio : Number;
  info_collection : string;
  info_id : string;
}.

Definition dquote : string := String "034"%char "".

(** [iconToSVG] receives the body with its geometry, and the customisations
    (the height as a string, and the three transformations). *)
Definition pathToSvg (env : Env) (info : IconInfo) (fontSize : Number) : string :=
  let result :=
    iconToSVG env (info_body info)
      (mkOptional (info_left info) (info_top info)
         (Some (info_width info)) (Some (info_height info))
         (info_rotate info) (info_hFlip info) (info_vFlip info))
      (numberToString env fontSize ++ "px") in
  let attributes :=
    ("xmlns=" ++ dquote ++ "http://www.w3.org/2000/svg" ++ dquote)
    :: ("xmlns:xlink=" ++ dquote ++ "http://www.w3.org/1999/xlink" ++ dquote)
    :: ("preserveAspectRatio=" ++ dquote ++ "xMidYMid meet" ++ dquote)
    :: List.map (fun '(key, value) => key ++ "=" ++ dquote ++ value ++ dquote)
         (svg_attributes result) in
  let formattedAttributes := String.concat " " attributes in
  "<svg " ++ formattedAttributes ++ ">" ++ svg_body result ++ "</svg>".

(** What a replacement string stands for at one match of a pattern without
    groups: [$$] is [$], [$&] is the match, [$`] is what precedes the match
    in the subject, [$'] is what follows it, and any other [$] stays. *)
Fixpoint substitution (rep matched before after : string) : string :=
  match rep with
  | EmptyString => EmptyString
  | String c rest =>
    if Ascii.eqb c "$"%char then
      match rest with
      | String d rest' =>
        if Ascii.eqb d "$"%char then
          String "$"%char (substitution rest' matched before after)
        else if Ascii.eqb d "&"%char then
          matched ++ substitution rest' matched before after
        else if Ascii.eqb d "`"%char then
          before ++ substitution rest' matched before after
        else if Ascii.eqb d "'"%char then
          after ++ substitution rest' matched before after
        else String c (substitution rest matched before after)
      | EmptyString => String c EmptyString
      end
    else String c (substitution rest matched before after)
  end.

(** [str.replace(/pat/g, rep)] for a non-empty literal pattern: the matches
    are taken from left to right without overlap; [before] is the part of
    the subject that was gone through, and [skip] characters of a match that
    was just replaced are dropped before matching resumes. *)
Fixpoint replace_from (pat rep : string) (skip : nat) (before s : string) : string :=
  match s with
  | EmptyString => EmptyString
  | String c s' =>
    match skip with
    | S n => replace_from pat rep n (before ++ String c "") s'
    | O =>
      if String.prefix pat s
      then substitution rep pat before
             (String.substring (String.length pat)
                (String.length s - String.length pat) s)
           ++ replace_from pat rep (String.length pat - 1) (before ++ String c "") s'
      else String c (replace_from pat rep O (before ++ String c "") s')
    end
  end.

Definition replaceAll (pat rep s : string) : string := replace_from pat rep O "" s.

(** ** The persisted cache *)

Definition writeCache (iconSetId : string) (data : IconifyJSON) (w : World) : World :=
  match fs_writeFile iconSetId (IconSetFile (json_roundtrip data)) w with
  | inr w' => w'
  | inl e => Log (LogError e false) w
  end.

Definition loadCache (iconSetId : string) (w : World) : option IconifyJSON :=
  match fs_readFile iconSetId w with
  | inr (IconSetFile data) => Some data
  | inr CorruptFile => None
  | inl _ => None
  end.

(** [ctx.globalState.keys()] *)
Definition globalState_keys (w : World) : list string :=
  (map_to_list (globalState w)).*1.

(** [ctx.globalState.update(id, undefined)] *)
Definition globalState_remove (id : string) (w : World) : World :=
  with_globalState (delete id (globalState w)) w.

(** [key.slice(prefix.length)] *)
Definition slice_from (n : nat) (s : string) : string :=
  String.substring n (String.length s - n) s.

Definition migrateCache_step (w : World) (key : string) : World :=
  let prefix := "icons-" in
  if String.prefix prefix key then
    match globalState w !! key with
    | Some cached =>
      let iconSetId := slice_from (String.length prefix) key in
      let w := with_loadedIconSets (<[iconSetId := cached]> (loadedIconSets w)) w in
      let w := writeCache iconSetId cached w in
      let w := globalState_remove key w in
      Log (InfoMigrated iconSetId) w
    | None => w (* not reached: the keys are distinct and still stored *)
    end
  else w.

Definition migrateCache (w : World) : World :=
  foldl migrateCache_step w (globalState_keys w).

(** ** [clearCache]

    [_tasks] is reset first.  The deletion of the cache folder is awaited
    outside any [try]: when it throws, [clearCache] rejects there. *)
Definition clearCache_step (w : World) (id : string) : World :=
  if String.prefix "icons-" id then globalState_remove id w else w.

Definition clearCache (s : State) : Settled unit Error * State :=
  let s := mkDedup ∅ (rest s) in
  match fs_delete_cacheDir (rest s) with
  | inl e => (Rejected e, s)
  | inr w =>
    let w := foldl clearCache_step w (globalState_keys w) in
    let w := with_loadedIconSets ∅ w in
    let w := with_dataURLCache ∅ w in
    let w := Log InfoCleared w in
    (Fulfilled tt, mkDedup (_tasks s) w)
  end.

(** ** [LoadIconSet] *)

Definition loadIconSet (env : Env) : Factory (option IconifyJSON) Error World :=
  fun id w =>
  let w := migrateCache w in
  let data :=
    match loadedIconSets w !! id with
    | Some d => Some d
    | None => List.find (fun c => String.eqb (prefix c) id) (customCollections env)
    end in
  match data with
  | Some _ => (Fulfilled data, w)
  | None =>
    match loadCache id w with
    | Some cached =>
      let w := with_loadedIconSets (<[id := cached]> (loadedIconSets w)) w in
      let data := Some cached in
      let w := Log (InfoLoadedFromDisk id) w in
      (Fulfilled data, w)
    | None =>
      let url := cdnEntry env ++ "/" ++ id ++ ".json" in
      let w := Log (InfoDownloading id url) w in
      match fetch env url with
      | Some fetched =>
        let data := Some fetched in
        let w := Log (InfoDownloaded id) w in
        let w := with_loadedIconSets (<[id := fetched]> (loadedIconSets w)) w in
        let w := writeCache id fetched w in
        (Fulfilled data, w)
      | None =>
        let w := Log (LogError FetchError true) w in
        (Fulfilled None, w)
      end
    end
  end.

Definition LoadIconSet (env : Env) : string -> State -> Settled (option IconifyJSON) Error * State :=
  UniqPromise (loadIconSet env).

(** ** [getIconInfo] *)

(** What the promise of [getIconInfo] is fulfilled with: [undefined] (a bare
    [return]), [null], or an [IconInfo]. *)
Inductive IconLookup : Type :=
| Undefined
| Null
| Found (info : IconInfo).

(** The first lines of [getIconInfo]: the key that is looked up, or [None]
    when the policy "custom aliases only" ends the call with a bare
    [return]. *)
Definition actualKey (env : Env) (key : string) (allowAliases : bool) : option string :=
  let alias := if allowAliases then enabledAliases env !! key else None in
  if allowAliases && customAliasesOnly env
     && negb (if alias is Some a then truthy_string a else false)
  then None
  else Some (nullish_or alias key).

(** [(width / height) || 1] *)
Definition ratio_of (width height : Number) : Number :=
  let q := (width / height)%float in
  if truthy_number q then q else 1%float.

Definition getIconInfo (env : Env) (key : string) (allowAliases : bool) (s : State)
    : Settled IconLookup Error * State :=
  match actualKey env key allowAliases with
  | None => (Fulfilled Undefined, s)
  | Some actualKey =>
    match parseIcon env actualKey with
    | None => (Fulfilled Undefined, s)
    | Some (collection, icon) =>
      match LoadIconSet env collection s with
      | (Rejected e, s) => (Rejected e, s)
      | (Fulfilled None, s) => (Fulfilled Null, s)
      | (Fulfilled (Some data), s) =>
        match resolveIconData data icon with
        | None => (Fulfilled Null, s)
        | Some iconData =>
          let width := nullish_or (nullish (width iconData) (set_width data)) 16%float in
          let height := nullish_or (nullish (height iconData) (set_height data)) 16%float in
          let icon :=
            mkInfo (body iconData) (left iconData) (top iconData) width height
              (rotate iconData) (hFlip iconData) (vFlip iconData)
              actualKey (ratio_of width height) collection icon in
          (Fulfilled (Found icon), s)
        end
      end
    end
  end.

(** ** [getDataURL] *)

Inductive KeyOrInfo : Type :=
| ByKey (key : string)
| ByInfo (info : IconInfo).

(** [color.value + fontSize + key], the key under which a data URL is
    cached; a missing [fontSize] is 32. *)
Definition cacheKey (env : Env) (fontSize : option Number) (key : string) : string :=
  color env ++ numberToString env (nullish_or fontSize 32%float) ++ key.

Definition getDataURL (env : Env) (keyOrInfo : KeyOrInfo) (fontSize : option Number)
    (s : State) : Settled string Error * State :=
  let key := match keyOrInfo with ByKey k => k | ByInfo i => info_key i end in
  let cacheKey := cacheKey env fontSize key in
  let fontSize := nullish_or fontSize 32%float in
  let hit :=
    match dataURLCache (rest s) !! cacheKey with
    | Some url => if truthy_string url then Some url else None
    | None => None
    end in
  match hit with
  | Some url => (Fulfilled url, s)
  | None =>
    let '(info, s) :=
      match keyOrInfo with
      | ByKey _ => getIconInfo env key true s
      | ByInfo i => (Fulfilled (Found i), s)
      end in
    match info with
    | Rejected e => (Rejected e, s)
    | Fulfilled Undefined | Fulfilled Null => (Fulfilled "", s)
    | Fulfilled (Found info) =>
      let url := toDataUrl env (replaceAll "currentColor" (color env) (pathToSvg env info fontSize)) in
      let w := with_dataURLCache (<[cacheKey := url]> (dataURLCache (rest s))) (rest s) in
      (Fulfilled url, mkDedup (_tasks s) w)
    end
  end.

(** ** A small installation used to run the definitions

    One custom collection [demo]; every other collection comes from the
    network, which only serves [net]. *)

Definition plain : IconifyOptional := mkOptional None None None None None None None.

Definition demoSet : IconifyJSON :=
  mkJSON "demo"
    (<["a" := mkIcon "<path/>" (mkOptional None None (Some 20%float) (Some 10%float) None None None)]>
     (<["b" := mkIcon "<rect/>" plain]>
     (<["flat" := mkIcon "<line/>" (mkOptional None None (Some 0%float) (Some 5%float) None None None)]>
     (<["thin" := mkIcon "<line/>" (mkOptional None None (Some 5%float) (Some 0%float) None None None)]>
      ∅))))
    (<["A" := mkAlias "B" plain]>
     (<["B" := mkAlias "A" plain]>
     (<["b-same" := mkAlias "b" (mkOptional None None None None None (Some false) None)]>
     (<["b-turn" := mkAlias "b" (mkOptional None None None None (Some 2) None None)]>
      ∅))))
    None None None None.

(** The aliases [A] and [B] name each other, and [A] is an icon as well. *)
Definition shadowedSet : IconifyJSON :=
  mkJSON "shadowed"
    (<["A" := mkIcon "<path/>" plain]> ∅)
    (<["A" := mkAlias "B" plain]> (<["B" := mkAlias "A" plain]> ∅))
    None None None None.

Definition netSet : IconifyJSON :=
  mkJSON "net" (<["x" := mkIcon "<circle/>" plain]> ∅) ∅ None None None None.

(** [collection:icon], split at the first colon. *)
Fixpoint split_colon (s : string) : option (string * string) :=
  match s with
  | EmptyString => None
  | String c s' =>
    if Ascii.eqb c ":"%char then Some (EmptyString, s')
    else
      match split_colon s' with
      | Some (a, b) => Some (String c a, b)
      | None => None
      end
  end.

Definition demoEnv : Env :=
  mkEnv [demoSet] "https://cdn.example" false ∅ "#fff" split_colon
    (fun url => if String.eqb url "https://cdn.example/net.json" then Some netSet else None)
    (fun s => s)
    (fun body _ h => mkSVG [("height", h)] body)
    (fun _ => "32").

Definition emptyWorld : World := mkWorld ∅ ∅ ∅ None false [].

Definition freshState : State := mkDedup ∅ emptyWorld.

(** The same installation without the custom collection, and a storage
    whose cache folder holds a file for [demo]. *)
Definition bareEnv : Env :=
  mkEnv [] (cdnEntry demoEnv) false ∅ (color demoEnv) split_colon (fetch demoEnv)
    (Base64_encode demoEnv) (iconToSVG demoEnv) (numberToString demoEnv).

Definition storedSet : IconifyJSON :=
  mkJSON "demo" ∅ ∅ None None (Some 24%float) (Some 24%float).

Definition diskWorld : World :=
  mkWorld ∅ ∅ ∅ (Some (<["demo" := IconSetFile storedSet]> ∅)) false [].

Definition diskState : State := mkDedup ∅ diskWorld.

(** A session that downloaded [net] and made one data URL, on a storage
    that has since turned read-only; one legacy entry is left. *)
Definition lockedState : State :=
  mkDedup (<["net" := Fulfilled (Some netSet)]> ∅)
    (mkWorld (<["net" := netSet]> ∅)
       (<["#fff32net:x" := "data:image/svg+xml;base64,<svg/>"]> ∅)
       (<["icons-old" := storedSet]> ∅)
       (Some (<["net" := IconSetFile netSet]> ∅)) true []).

(** ** The invariant of the data-URL cache

    Every stored data URL is a non-empty string. *)
Definition urls_nonempty (w : World) : Prop :=
  forall k url, dataURLCache w !! k = Some url -> url <> "".

(** ** Notions used by the further properties *)

(** The key of the legacy store under which the icon set [id] was kept. *)
Definition legacyKey (id : string) : string := "icons-" ++ id.

(** A process that has just started: the module-level variables hold their
    initial values (empty objects), and the storage of the host is what the
    previous process left. *)
Definition restart (w : World) : State :=
  mkDedup ∅ (mkWorld ∅ ∅ (globalState w) (cacheDir w) (readOnly w) (logged w)).

(** An icon as [normalizeIcon] leaves it: the four lengths are present, and
    the rotation, if any, is a remainder by 4. *)
Definition normalized (icon : IconifyIcon) : Prop :=
  is_Some (left icon) /\ is_Some (top icon)
  /\ is_Some (width icon) /\ is_Some (height icon)
  /\ (forall r, rotate icon = Some r -> -4 < r < 4).

(** Every stored data URL starts with the scheme that [toDataUrl] writes. *)
Definition data_url_scheme : string := "data:image/svg+xml;base64,".

Definition urls_are_data_urls (w : World) : Prop :=
  forall k url, dataURLCache w !! k = Some url -> String.prefix data_url_scheme url = true.

(** The opening of every document that [pathToSvg] writes. *)
Definition svg_open : string :=
  "<svg xmlns=" ++ dquote ++ "http://www.w3.org/2000/svg" ++ dquote
  ++ " xmlns:xlink=" ++ dquote ++ "http://www.w3.org/1999/xlink" ++ dquote
  ++ " preserveAspectRatio=" ++ dquote ++ "xMidYMid meet" ++ dquote.

(** One attribute of the result of [iconToSVG], as it is written. *)
Definition svg_attribute (kv : string * string) : string :=
  " " ++ fst kv ++ "=" ++ dquote ++ snd kv ++ dquote.

(** The attributes of the result of [iconToSVG], as they are written. *)
Definition svg_attributes_text (attrs : list (string * string)) : string :=
  fold_right (fun kv acc => svg_attribute kv ++ acc) "" attrs.

(** No stored task is a rejected promise. *)
Definition never_rejected (s : State) : Prop :=
  forall id p, _tasks s !! id = Some p -> exists v, p = Fulfilled v.

(** * Properties *)

(** ** Alias resolution *)

Section Resolution.
Variable data : IconifyJSON.

Lemma resolve_unfold fuel key visited :
  resolve data (S fuel) key visited =
  if bool_decide (key ∈ visited) then (Some None, visited)
  else
    match icons data !! key with
    | Some icon => (Some (Some (normalizeIcon icon data)), (visited ++ [key])%list)
    | None =>
      match aliases data !! key with
      | None => (Some None, (visited ++ [key])%list)
      | Some alias =>
        match resolve data fuel (parent alias) (visited ++ [key])%list with
        | (None, visited) => (None, visited)
        | (Some None, visited) => (Some None, visited)
        | (Some (Some parent), visited) =>
          (Some (Some (normalizeIcon (mergeAlias parent alias) data)), visited)
        end
      end
    end.
Proof. reflexivity. Qed.

(** The cycle guard: a name that was visited is answered with [null] at
    once, and nothing is recorded. *)
Lemma resolve_visited fuel key visited :
  key ∈ visited -> resolve data (S fuel) key visited = (Some None, visited).
Proof.
  intros Hin. rewrite resolve_unfold. by rewrite bool_decide_eq_true_2.
Qed.

Lemma pending_shrinks key visited alias :
  key ∉ visited -> aliases data !! key = Some alias ->
  (size (pending data (visited ++ [key])) < size (pending data visited))%nat.
Proof.
  intros Hnew Halias. apply subset_size. unfold pending.
  assert (Hdom : key ∈ dom (aliases data)) by (apply elem_of_dom; eauto).
  assert (Hnot : key ∉ (list_to_set visited : gset string))
    by (by rewrite elem_of_list_to_set).
  rewrite list_to_set_app_L. split.
  - apply difference_mono_l, union_subseteq_l.
  - intros Hsub. specialize (Hsub key).
    rewrite !elem_of_difference, elem_of_union in Hsub.
    destruct Hsub as [_ Hsub]; [done|]. apply Hsub. right.
    apply elem_of_list_to_set, list_elem_of_singleton. done.
Qed.

(** With more fuel than pending aliases, [resolve] returns. *)
Lemma resolve_fuel_enough fuel : forall key visited,
  (size (pending data visited) < fuel)%nat ->
  is_Some (fst (resolve data fuel key visited)).
Proof.
  induction fuel as [|fuel IH]; intros key visited Hfuel; [lia|].
  rewrite resolve_unfold. case_bool_decide as Hin; [by eexists|].
  destruct (icons data !! key); [by eexists|].
  destruct (aliases data !! key) as [alias|] eqn:Halias; [|by eexists].
  pose proof (pending_shrinks key visited alias Hin Halias) as Hlt.
  destruct (IH (parent alias) (visited ++ [key])%list ltac:(lia)) as [r Hr].
  destruct (resolve data fuel (parent alias) (visited ++ [key])%list) as [[[p|]|] v];
    simpl in *; by eexists.
Qed.

Lemma pending_nil_size : (size (pending data []) < resolve_fuel data)%nat.
Proof.
  unfold pending, resolve_fuel.
  assert (Hle : (size (dom (aliases data) ∖ list_to_set []) <= size (dom (aliases data)))%nat)
    by (apply subseteq_size, subseteq_difference_l; done).
  rewrite size_dom in Hle. lia.
Qed.

Lemma resolve_returns name :
  exists r, fst (resolve data (resolve_fuel data) name []) = Some r
            /\ resolveIconData data name = r.
Proof.
  destruct (resolve_fuel_enough (resolve_fuel data) name [] pending_nil_size) as [r Hr].
  exists r. split; [done|]. unfold resolveIconData. by rewrite Hr.
Qed.

(** No name is recorded twice. *)
Lemma resolve_NoDup fuel : forall key visited,
  NoDup visited -> NoDup (snd (resolve data fuel key visited)).
Proof.
  induction fuel as [|fuel IH]; intros key visited Hnd; [done|].
  rewrite resolve_unfold. case_bool_decide as Hin; [done|].
  assert (NoDup (visited ++ [key])).
  { apply NoDup_app. split_and!; [done| |apply NoDup_singleton].
    intros x Hx ->%list_elem_of_singleton. done. }
  destruct (icons data !! key); [done|].
  destruct (aliases data !! key) as [alias|]; [|done].
  specialize (IH (parent alias) (visited ++ [key])%list ltac:(done)).
  destruct (resolve data fuel (parent alias) (visited ++ [key])%list) as [[[p|]|] v];
    done.
Qed.

(** Within a set of aliases that is closed under [alias_step], resolution
    finds no icon. *)
Lemma resolve_closed (names : gset string) :
  (forall k, k ∈ names -> exists k', alias_step data k = Some k' /\ k' ∈ names) ->
  forall fuel key visited, key ∈ names ->
  fst (resolve data fuel key visited) = None
  \/ fst (resolve data fuel key visited) = Some None.
Proof.
  intros Hclosed. induction fuel as [|fuel IH]; intros key visited Hkey; [by left|].
  rewrite resolve_unfold. case_bool_decide; [by right|].
  destruct (Hclosed key Hkey) as (k' & Hstep & Hk').
  unfold alias_step in Hstep.
  destruct (icons data !! key); [done|].
  destruct (aliases data !! key) as [alias|]; [|by right].
  simpl in Hstep. injection Hstep as <-.
  destruct (IH (parent alias) (visited ++ [key])%list Hk') as [H'|H'];
    destruct (resolve data fuel (parent alias) (visited ++ [key])%list) as [[[p|]|] v];
    simpl in *; try done; first [by left | by right].
Qed.

Lemma alias_cycle_closed cycle :
  alias_cycle data cycle = true ->
  (forall k, k ∈ cycle -> icons data !! k = None) ->
  forall k, k ∈ (list_to_set cycle : gset string) ->
  exists k', alias_step data k = Some k' /\ k' ∈ (list_to_set cycle : gset string).
Proof.
  unfold alias_cycle. rewrite forallb_forall. intros Hall Hicons k Hk.
  apply elem_of_list_to_set in Hk. pose proof (Hicons k Hk) as Hicon.
  unfold alias_step. rewrite Hicon.
  apply list_elem_of_lookup in Hk as [i Hi].
  assert (Hlen : (i < length (list.rotate 1%nat cycle))%nat)
    by (rewrite length_rotate; by eapply lookup_lt_Some).
  apply lookup_lt_is_Some in Hlen as [k' Hk'].
  exists k'. split.
  - assert (Hin : In (k, k') (zip cycle (list.rotate 1%nat cycle))).
    { apply list_elem_of_In, list_elem_of_lookup. exists i.
      apply lookup_zip_with_Some. by exists k, k'. }
    apply Hall in Hin. by apply bool_decide_eq_true in Hin.
  - apply elem_of_list_to_set.
    apply list_elem_of_lookup_2 in Hk'. unfold list.rotate in Hk'.
    apply elem_of_app in Hk' as [Hd|Ht].
    + by eapply subseteq_drop.
    + by eapply subseteq_take.
Qed.
End Resolution.

(** C2, as the code has it.  For every icon set, [resolveIconData]
    terminates on every name (the bounded recursion returns with the fuel it
    is given); the names it goes through are pairwise distinct, and a name
    that is already on the path is answered with [null] without being
    entered again.  On every name of a cyclic alias chain it returns [null],
    provided that no name of the chain is the name of an icon as well,
    be it a key of [icons] or a name that every object inherits: the icon is
    looked up first and wins. *)
Theorem resolveIconData_cycle_safe (data : IconifyJSON) :
  (forall name, is_Some (fst (resolve data (resolve_fuel data) name [])))
  /\ (forall cycle name,
        alias_cycle data cycle = true ->
        (forall k, k ∈ cycle -> icons data !! k = None /\ inherited k = false) ->
        name ∈ cycle ->
        fst (resolve data (resolve_fuel data) name []) = Some None
        /\ resolveIconData data name = None)
  /\ (forall name, NoDup (resolutionPath data name))
  /\ (forall fuel key visited,
        key ∈ visited -> resolve data (S fuel) key visited = (Some None, visited)).
Proof.
  split_and!.
  - intros name. apply resolve_fuel_enough, pending_nil_size.
  - intros cycle name Hcycle Hpure Hname.
    destruct (resolve_returns data name) as (r & Hr & Hdata).
    pose proof (resolve_closed data (list_to_set cycle)
                  (alias_cycle_closed data cycle Hcycle
                     (fun k Hk => proj1 (Hpure k Hk)))
                  (resolve_fuel data) name []) as Hclosed.
    destruct Hclosed as [Hnone|Hnull]; [by apply elem_of_list_to_set| |].
    + rewrite Hr in Hnone. discriminate.
    + rewrite Hr in Hnull. injection Hnull as ->. by rewrite Hr.
  - intros name. apply resolve_NoDup, NoDup_nil_2.
  - intros fuel key visited. apply resolve_visited.
Qed.

(** C2, as it was stated, fails: in [shadowedSet] the aliases [A] and [B]
    form a cycle, yet [A] is found as an icon, and [B] resolves through
    it. *)
Lemma cycle_through_an_icon_counterexample :
  alias_cycle shadowedSet ["A"; "B"] = true
  /\ (parent <$> aliases shadowedSet !! "A") = Some "B"
  /\ (parent <$> aliases shadowedSet !! "B") = Some "A"
  /\ resolveIconData shadowedSet "A" <> None
  /\ resolveIconData shadowedSet "B" <> None.
Proof. split_and!; vm_compute; congruence. Qed.

Lemma resolveIconData_cycle_safe_witness :
  alias_cycle demoSet ["A"; "B"] = true
  /\ resolveIconData demoSet "A" = None
  /\ resolveIconData demoSet "B" = None.
Proof.
  destruct (resolveIconData_cycle_safe demoSet) as (_ & Hcycle & _).
  assert (Hpure : forall k, k ∈ ["A"; "B"] ->
            icons demoSet !! k = None /\ inherited k = false).
  { intros k [->|[->|[]%not_elem_of_nil]%elem_of_cons]%elem_of_cons;
      split; vm_compute; reflexivity. }
  split; [vm_compute; reflexivity|].
  split; apply (Hcycle ["A"; "B"]);
    solve [vm_compute; reflexivity | exact Hpure | repeat constructor].
Defined.

(** ** Merging an alias onto its parent *)

Lemma mergeAlias_rotate (parent : IconifyIcon) (alias : IconifyAlias) :
  rotate (mergeAlias parent alias) =
  let r := Z.rem (nullish_or (rotate parent) 0 + nullish_or (rotate alias) 0) 4 in
  if (r =? 0)%Z then None else Some r.
Proof.
  unfold mergeAlias. cbv zeta.
  destruct (strict_neq (vFlip parent) (vFlip alias)),
    (strict_neq (hFlip parent) (hFlip alias)),
    (Z.rem (nullish_or (rotate parent) 0 + nullish_or (rotate alias) 0) 4 =? 0)%Z;
    reflexivity.
Qed.

Lemma mergeAlias_hFlip (parent : IconifyIcon) (alias : IconifyAlias) :
  hFlip (mergeAlias parent alias) =
  if strict_neq (hFlip parent) (hFlip alias) then Some true else None.
Proof.
  unfold mergeAlias. cbv zeta.
  destruct (strict_neq (vFlip parent) (vFlip alias)),
    (strict_neq (hFlip parent) (hFlip alias)); reflexivity.
Qed.

Lemma mergeAlias_vFlip (parent : IconifyIcon) (alias : IconifyAlias) :
  vFlip (mergeAlias parent alias) =
  if strict_neq (vFlip parent) (vFlip alias) then Some true else None.
Proof.
  unfold mergeAlias. cbv zeta.
  destruct (strict_neq (vFlip parent) (vFlip alias)); reflexivity.
Qed.

(** On flags that are both stated, or both in the form that [mergeAlias]
    itself produces ([true] or missing), the comparison is the exclusive
    or. *)
Lemma strict_neq_xor (a b : option bool) :
  (is_Some a <-> is_Some b) \/ (a <> Some false /\ b <> Some false) ->
  strict_neq a b = xorb (flag a) (flag b).
Proof.
  destruct a as [[]|], b as [[]|]; simpl; try reflexivity;
    intros [[H1 H2]|[H1 H2]]; try done;
    try (by destruct H1 as [? ?]; [eexists|]);
    try (by destruct H2 as [? ?]; [eexists|]).
Qed.

(** Under that condition the merged flag is the exclusive or of the two
    flags. *)
Lemma mergeAlias_hFlip_xor (parent : IconifyIcon) (alias : IconifyAlias) :
  (is_Some (hFlip parent) <-> is_Some (hFlip alias))
  \/ (hFlip parent <> Some false /\ hFlip alias <> Some false) ->
  flag (hFlip (mergeAlias parent alias)) = xorb (flag (hFlip parent)) (flag (hFlip alias)).
Proof.
  intros Hcond. rewrite mergeAlias_hFlip, <- (strict_neq_xor _ _ Hcond).
  by destruct (strict_neq _ _).
Qed.

Lemma rem4_idempotent (a : Z) : Z.rem (Z.rem a 4) 4 = Z.rem a 4.
Proof.
  pose proof (Z.rem_bound_abs a 4 ltac:(lia)) as Hb.
  assert (H : Z.rem a 4 = -3 \/ Z.rem a 4 = -2 \/ Z.rem a 4 = -1 \/ Z.rem a 4 = 0
              \/ Z.rem a 4 = 1 \/ Z.rem a 4 = 2 \/ Z.rem a 4 = 3) by lia.
  destruct H as [-> | [-> | [-> | [-> | [-> | [-> | ->]]]]]]; reflexivity.
Qed.

Lemma normalizeIcon_rotate (icon : IconifyIcon) (data : IconifyJSON) :
  rotate (normalizeIcon icon data) =
  match rotate icon with
  | Some r => Some (if (r =? 0)%Z then r else Z.rem r 4)
  | None => None
  end.
Proof.
  destruct icon as [b [l t w h [r|] hf vf]]; unfold normalizeIcon; simpl;
    [destruct (r =? 0)%Z|]; reflexivity.
Qed.

Lemma normalizeIcon_size (icon : IconifyIcon) (data : IconifyJSON) :
  width (normalizeIcon icon data)
    = Some (nullish_or (nullish (width icon) (set_width data)) 16%float)
  /\ height (normalizeIcon icon data)
    = Some (nullish_or (nullish (height icon) (set_height data)) 16%float).
Proof.
  destruct icon as [b [l t w h [r|] hf vf]]; unfold normalizeIcon; simpl;
    [destruct (r =? 0)%Z|]; done.
Qed.

(** C6, as the code has it.  For rotations that are integers of magnitude
    at most 2^52 (their sum is then exact in binary64), the rotation of the
    merged icon is the remainder ([%]) of the sum of the parent's and the
    alias's rotations by 4, a missing rotation counting as 0, and a
    remainder of 0 removes the property; the normalization that follows the
    merge in [resolve] keeps that value.  The remainder has the sign of the
    sum: it is the residue modulo 4 when the sum is not negative, and the
    opposite of the residue of the opposite sum when it is negative. *)
Theorem mergeAlias_rotate_remainder (parent : IconifyIcon) (alias : IconifyAlias)
    (data : IconifyJSON) :
  let p := nullish_or (rotate parent) 0 in
  let a := nullish_or (rotate alias) 0 in
  Z.abs p <= 2 ^ 52 -> Z.abs a <= 2 ^ 52 ->
  rotate (mergeAlias parent alias)
    = (if (Z.rem (p + a) 4 =? 0)%Z then None else Some (Z.rem (p + a) 4))
  /\ rotate (normalizeIcon (mergeAlias parent alias) data)
    = rotate (mergeAlias parent alias)
  /\ (0 <= p + a -> Z.rem (p + a) 4 = (p + a) mod 4)
  /\ (p + a < 0 -> Z.rem (p + a) 4 = - ((- (p + a)) mod 4)).
Proof.
  cbv zeta. intros _ _. split_and!.
  - apply mergeAlias_rotate.
  - rewrite normalizeIcon_rotate, mergeAlias_rotate. cbv zeta.
    destruct (Z.rem _ 4 =? 0)%Z eqn:Hz; [reflexivity|].
    rewrite Hz. by rewrite rem4_idempotent.
  - intros Hsum. apply Z.rem_mod_nonneg; lia.
  - intros Hsum.
    replace (nullish_or (rotate parent) 0 + nullish_or (rotate alias) 0)
      with (- - (nullish_or (rotate parent) 0 + nullish_or (rotate alias) 0)) at 1
      by lia.
    rewrite Z.rem_opp_l by lia. f_equal. apply Z.rem_mod_nonneg; lia.
Qed.

(** C6, as it was stated, fails on a negative sum: a parent turned by -1
    under an alias that turns by -2 comes out with the rotation -3, where
    the sum modulo 4 is 1. *)
Lemma mergeAlias_rotate_negative_counterexample :
  rotate (mergeAlias (mkIcon "<path/>" (mkOptional None None None None (Some (-1)) None None))
            (mkAlias "p" (mkOptional None None None None (Some (-2)) None None)))
    = Some (-3)
  /\ (-1 + -2) mod 4 = 1
  /\ Some (-3) <> Some ((-1 + -2) mod 4).
Proof. split_and!; vm_compute; congruence. Qed.

Lemma mergeAlias_rotate_remainder_witness :
  rotate (mergeAlias (mkIcon "<path/>" (mkOptional None None None None (Some 1) None None))
            (mkAlias "p" (mkOptional None None None None (Some 2) None None))) = Some 3
  /\ rotate (mergeAlias (mkIcon "<path/>" (mkOptional None None None None (Some 2) None None))
            (mkAlias "p" (mkOptional None None None None (Some 2) None None))) = None.
Proof.
  split.
  - exact (proj1 (mergeAlias_rotate_remainder
      (mkIcon "<path/>" (mkOptional None None None None (Some 1) None None))
      (mkAlias "p" (mkOptional None None None None (Some 2) None None)) demoSet
      ltac:(vm_compute; discriminate) ltac:(vm_compute; discriminate))).
  - exact (proj1 (mergeAlias_rotate_remainder
      (mkIcon "<path/>" (mkOptional None None None None (Some 2) None None))
      (mkAlias "p" (mkOptional None None None None (Some 2) None None)) demoSet
      ltac:(vm_compute; discriminate) ltac:(vm_compute; discriminate))).
Defined.

(** C5. The flags are compared with [!==], which tells a missing flag from
    an explicit [false]: a parent without [hFlip] under an alias that states
    [hFlip: false] comes out flipped, although neither asks for a flip (and
    likewise for the roles exchanged, and for [vFlip]).  The icon set
    [demoSet] shows it through [resolveIconData]. *)
Theorem mergeAlias_flip_missing_vs_false :
  let unset := mkOptional None None None None None None None in
  let stated := mkOptional None None None None None (Some false) (Some false) in
  hFlip (mergeAlias (mkIcon "<rect/>" unset) (mkAlias "b" stated)) = Some true
  /\ vFlip (mergeAlias (mkIcon "<rect/>" unset) (mkAlias "b" stated)) = Some true
  /\ hFlip (mergeAlias (mkIcon "<rect/>" stated) (mkAlias "b" unset)) = Some true
  /\ xorb (flag None) (flag (Some false)) = false
  /\ (exists icon, resolveIconData demoSet "b-same" = Some icon
                   /\ hFlip icon = Some true).
Proof.
  cbv zeta. split_and!; try (vm_compute; reflexivity).
  eexists. split; vm_compute; reflexivity.
Qed.

(** ** [getIconInfo] *)

Lemma resolveIconData_icon (data : IconifyJSON) (name : string) (icon : IconifyIcon) :
  icons data !! name = Some icon ->
  resolveIconData data name = Some (normalizeIcon icon data).
Proof.
  intros Hicon. unfold resolveIconData, resolve_fuel.
  rewrite resolve_unfold, bool_decide_eq_false_2 by apply not_elem_of_nil.
  by rewrite Hicon.
Qed.

(** The outcomes of [getIconInfo] once the key is settled and parsed. *)
Lemma getIconInfo_loaded (env : Env) (key : string) (allowAliases : bool)
    (s s' : State) (ak collection name : string) (r : Settled (option IconifyJSON) Error) :
  actualKey env key allowAliases = Some ak ->
  parseIcon env ak = Some (collection, name) ->
  LoadIconSet env collection s = (r, s') ->
  getIconInfo env key allowAliases s =
  match r with
  | Rejected e => (Rejected e, s')
  | Fulfilled None => (Fulfilled Null, s')
  | Fulfilled (Some data) =>
    match resolveIconData data name with
    | None => (Fulfilled Null, s')
    | Some iconData =>
      let width := nullish_or (nullish (width iconData) (set_width data)) 16%float in
      let height := nullish_or (nullish (height iconData) (set_height data)) 16%float in
      (Fulfilled (Found
         (mkInfo (body iconData) (left iconData) (top iconData) width height
            (rotate iconData) (hFlip iconData) (vFlip iconData)
            ak (ratio_of width height) collection name)), s')
    end
  end.
Proof.
  intros Hkey Hparse Hload. unfold getIconInfo.
  rewrite Hkey, Hparse, Hload. by destruct r as [[data|]|e].
Qed.

(** Whatever [getIconInfo] finds carries the ratio computed from its own
    width and height. *)
Lemma getIconInfo_found (env : Env) (key : string) (allowAliases : bool)
    (s s' : State) (info : IconInfo) :
  getIconInfo env key allowAliases s = (Fulfilled (Found info), s') ->
  info_ratio info = ratio_of (info_width info) (info_height info).
Proof.
  unfold getIconInfo.
  destruct (actualKey env key allowAliases) as [ak|]; [|done].
  destruct (parseIcon env ak) as [[collection name]|]; [|done].
  destruct (LoadIconSet env collection s) as [[[data|]|e] s1]; [|done|done].
  destruct (resolveIconData data name) as [iconData|]; [|done].
  intros [= <- _]. reflexivity.
Qed.

Lemma ratio_16_16 : ratio_of 16%float 16%float = 1%float.
Proof. reflexivity. Qed.

(** C8. An icon without a width and a height of its own, in an icon set that
    states no width and no height either, is normalized to 16 by 16, and
    [getIconInfo] reports it with width 16, height 16 and ratio 1. *)
Theorem default_geometry_16 (env : Env) (key : string) (allowAliases : bool)
    (s s' : State) (ak collection name : string) (data : IconifyJSON)
    (icon : IconifyIcon) :
  actualKey env key allowAliases = Some ak ->
  parseIcon env ak = Some (collection, name) ->
  LoadIconSet env collection s = (Fulfilled (Some data), s') ->
  icons data !! name = Some icon ->
  width icon = None -> height icon = None ->
  set_width data = None -> set_height data = None ->
  width (normalizeIcon icon data) = Some 16%float
  /\ height (normalizeIcon icon data) = Some 16%float
  /\ resolveIconData data name = Some (normalizeIcon icon data)
  /\ exists info,
       getIconInfo env key allowAliases s = (Fulfilled (Found info), s')
       /\ info_width info = 16%float
       /\ info_height info = 16%float
       /\ info_ratio info = 1%float.
Proof.
  intros Hkey Hparse Hload Hicon Hw Hh Hsw Hsh.
  destruct (normalizeIcon_size icon data) as [Hnw Hnh].
  rewrite Hw, Hh, Hsw, Hsh in *. simpl in Hnw, Hnh.
  split_and!; [done|done|by apply resolveIconData_icon|].
  rewrite (getIconInfo_loaded env key allowAliases s s' ak collection name _ Hkey Hparse Hload).
  rewrite (resolveIconData_icon data name icon Hicon). cbv zeta.
  rewrite Hnw, Hnh. simpl. eexists. split; [reflexivity|]. simpl.
  split_and!; reflexivity.
Qed.

Lemma default_geometry_16_witness :
  exists info s',
    getIconInfo demoEnv "demo:b" true freshState = (Fulfilled (Found info), s')
    /\ info_width info = 16%float
    /\ info_height info = 16%float
    /\ info_ratio info = 1%float.
Proof.
  destruct (default_geometry_16 demoEnv "demo:b" true freshState
              (snd (LoadIconSet demoEnv "demo" freshState))
              "demo:b" "demo" "b" demoSet (mkIcon "<rect/>" plain))
    as (_ & _ & _ & info & Hinfo); try (vm_compute; reflexivity).
  exists info. eexists. exact Hinfo.
Defined.

(** C9, as the code has it.  The ratio of a resolved icon is the quotient of
    its final width by its final height whenever that quotient is neither
    zero nor NaN, and 1 otherwise; it is therefore never zero and never NaN.
    A zero height under a non-zero width gives an infinite ratio. *)
Theorem getIconInfo_ratio (env : Env) (key : string) (allowAliases : bool)
    (s s' : State) (info : IconInfo) :
  getIconInfo env key allowAliases s = (Fulfilled (Found info), s') ->
  let q := (info_width info / info_height info)%float in
  info_ratio info = (if is_zero q || is_nan q then 1%float else q)
  /\ truthy_number (info_ratio info) = true.
Proof.
  intros Hfound. cbv zeta.
  rewrite (getIconInfo_found _ _ _ _ _ _ Hfound).
  unfold ratio_of, truthy_number. cbv zeta.
  destruct (is_zero _ || is_nan _) eqn:Hq; simpl.
  - done.
  - by rewrite Hq.
Qed.

Lemma getIconInfo_ratio_witness :
  exists info s',
    getIconInfo demoEnv "demo:a" true freshState = (Fulfilled (Found info), s')
    /\ info_ratio info = 2%float.
Proof.
  eexists _, _. split; [vm_compute; reflexivity|].
  exact (proj1 (getIconInfo_ratio demoEnv "demo:a" true freshState _ _ eq_refl)).
Defined.

Lemma float_neq (x y : float) : PrimFloat.eqb x y = false -> is_nan x = false -> x <> y.
Proof.
  intros Hneq Hnan ->. unfold is_nan in Hnan. rewrite Hneq in Hnan. discriminate.
Qed.

(** C9, as it was stated, fails on a valid division whose quotient is zero:
    the icon [flat] of [demoSet] is 0 wide and 5 high, the quotient 0 / 5 is
    0, and the reported ratio is 1.  It also fails on a zero divisor: the
    icon [thin] is 5 wide and 0 high, and its ratio is infinite, not 1. *)
Lemma ratio_counterexample :
  (exists info s',
     getIconInfo demoEnv "demo:flat" true freshState = (Fulfilled (Found info), s')
     /\ info_width info = 0%float /\ info_height info = 5%float
     /\ (info_width info / info_height info)%float = 0%float
     /\ info_ratio info = 1%float
     /\ info_ratio info <> (info_width info / info_height info)%float)
  /\ (exists info s',
     getIconInfo demoEnv "demo:thin" true freshState = (Fulfilled (Found info), s')
     /\ info_width info = 5%float /\ info_height info = 0%float
     /\ info_ratio info = infinity
     /\ info_ratio info <> 1%float).
Proof.
  split.
  - eexists _, _. split; [vm_compute; reflexivity|]. simpl.
    split_and!; try reflexivity. by apply float_neq.
  - eexists _, _. split; [vm_compute; reflexivity|]. simpl.
    split_and!; try reflexivity. by apply float_neq.
Qed.

(** C1, as the code has it.  When the collection of a key fails to load,
    [getIconInfo] is fulfilled with [null]; it is fulfilled with the same
    [null] when the collection loads and the name does not resolve.  Only
    the bare [return] of a refused or unparsable key gives another value,
    [undefined]. *)
Theorem getIconInfo_unavailable_null (env : Env) (key : string) (allowAliases : bool)
    (s s' : State) (ak collection name : string) :
  actualKey env key allowAliases = Some ak ->
  parseIcon env ak = Some (collection, name) ->
  LoadIconSet env collection s = (Fulfilled None, s') ->
  getIconInfo env key allowAliases s = (Fulfilled Null, s')
  /\ (forall (t t' : State) (data : IconifyJSON),
        LoadIconSet env collection t = (Fulfilled (Some data), t') ->
        resolveIconData data name = None ->
        getIconInfo env key allowAliases t = (Fulfilled Null, t'))
  /\ (forall (key' : string) (allow' : bool) (t : State),
        actualKey env key' allow' = None
        \/ (exists ak', actualKey env key' allow' = Some ak' /\ parseIcon env ak' = None) ->
        getIconInfo env key' allow' t = (Fulfilled Undefined, t))
  /\ Null <> Undefined.
Proof.
  intros Hkey Hparse Hload. split_and!.
  - by rewrite (getIconInfo_loaded _ _ _ _ _ _ _ _ _ Hkey Hparse Hload).
  - intros t t' data Ht Hres.
    rewrite (getIconInfo_loaded _ _ _ _ _ _ _ _ _ Hkey Hparse Ht). by rewrite Hres.
  - intros key' allow' t [Hnone|(ak' & Hak & Hnone)]; unfold getIconInfo.
    + by rewrite Hnone.
    + by rewrite Hak, Hnone.
  - discriminate.
Qed.

Lemma getIconInfo_unavailable_null_witness :
  fst (LoadIconSet demoEnv "gone" freshState) = Fulfilled None
  /\ fst (getIconInfo demoEnv "gone:a" true freshState) = Fulfilled Null.
Proof.
  split; [vm_compute; reflexivity|].
  assert (Hload : LoadIconSet demoEnv "gone" freshState
                  = (Fulfilled None, snd (LoadIconSet demoEnv "gone" freshState)))
    by (vm_compute; reflexivity).
  destruct (getIconInfo_unavailable_null demoEnv "gone:a" true freshState
              _ "gone:a" "gone" "a" eq_refl eq_refl Hload) as (Hnull & _).
  by rewrite Hnull.
Defined.

(** C1, as it was stated, fails: the collection [gone] cannot be loaded, the
    collection [demo] loads and has no icon [zzz], and the caller receives
    the same value in both cases. *)
Lemma unavailable_not_distinct_counterexample :
  fst (LoadIconSet demoEnv "gone" freshState) = Fulfilled None
  /\ fst (LoadIconSet demoEnv "demo" freshState) = Fulfilled (Some demoSet)
  /\ resolveIconData demoSet "zzz" = None
  /\ fst (getIconInfo demoEnv "gone:zzz" true freshState)
     = fst (getIconInfo demoEnv "demo:zzz" true freshState).
Proof. split_and!; vm_compute; reflexivity. Qed.

(** ** The request deduplicator *)

Section DeduplicatorFacts.
Context {T E W : Type}.
Implicit Types (fn : Factory T E W) (s : Dedup T E W).

Lemma UniqPromise_stored fn id s p :
  _tasks s !! id = Some p -> UniqPromise fn id s = (p, s).
Proof. intros Hp. unfold UniqPromise. by rewrite Hp. Qed.

Lemma UniqPromise_fresh fn id s :
  _tasks s !! id = None ->
  UniqPromise fn id s =
  (fst (fn id (rest s)),
   mkDedup (<[id := fst (fn id (rest s))]> (_tasks s)) (snd (fn id (rest s)))).
Proof.
  intros Hp. unfold UniqPromise. rewrite Hp. by destruct (fn id (rest s)).
Qed.

(** After a call the task of the key is stored, holding what the call
    returned. *)
Lemma UniqPromise_records fn id s :
  _tasks (snd (UniqPromise fn id s)) !! id = Some (fst (UniqPromise fn id s)).
Proof.
  destruct (_tasks s !! id) as [p|] eqn:Hp.
  - by rewrite (UniqPromise_stored fn id s p Hp).
  - rewrite (UniqPromise_fresh fn id s Hp). simpl. apply lookup_insert_eq.
Qed.

(** A call never removes or replaces a stored task. *)
Lemma UniqPromise_keeps fn id s id' p :
  _tasks s !! id' = Some p ->
  _tasks (snd (UniqPromise fn id s)) !! id' = Some p.
Proof.
  intros Hp'. destruct (_tasks s !! id) as [p0|] eqn:Hp.
  - by rewrite (UniqPromise_stored fn id s p0 Hp).
  - rewrite (UniqPromise_fresh fn id s Hp). simpl.
    rewrite lookup_insert_ne; [done|]. intros ->. congruence.
Qed.

Lemma deleteTask_then_UniqPromise fn id s :
  UniqPromise fn id (snd (deleteTask id s)) =
  (fst (fn id (rest s)),
   mkDedup (<[id := fst (fn id (rest s))]> (_tasks s)) (snd (fn id (rest s)))).
Proof.
  rewrite UniqPromise_fresh by apply lookup_delete_eq.
  simpl. by rewrite insert_delete_eq.
Qed.
End DeduplicatorFacts.

Lemma getIconInfo_keeps_tasks (env : Env) (key : string) (allowAliases : bool)
    (s : State) (id : string) (p : Settled (option IconifyJSON) Error) :
  _tasks s !! id = Some p ->
  _tasks (snd (getIconInfo env key allowAliases s)) !! id = Some p.
Proof.
  intros Hp. unfold getIconInfo.
  destruct (actualKey env key allowAliases) as [ak|]; [|done].
  destruct (parseIcon env ak) as [[collection name]|]; [|done].
  pose proof (UniqPromise_keeps (loadIconSet env) collection s id p Hp) as Hkeep.
  unfold LoadIconSet.
  destruct (UniqPromise (loadIconSet env) collection s) as [[[data|]|e] s1]; try done.
  by destruct (resolveIconData data name).
Qed.

Lemma getDataURL_keeps_tasks (env : Env) (keyOrInfo : KeyOrInfo)
    (fontSize : option Number) (s : State) (id : string)
    (p : Settled (option IconifyJSON) Error) :
  _tasks s !! id = Some p ->
  _tasks (snd (getDataURL env keyOrInfo fontSize s)) !! id = Some p.
Proof.
  intros Hp. unfold getDataURL. cbv zeta.
  destruct (match dataURLCache (rest s) !! _ with Some _ => _ | None => _ end); [done|].
  destruct keyOrInfo as [key|info]; [|done].
  pose proof (getIconInfo_keeps_tasks env key true s id p Hp) as Hkeep.
  destruct (getIconInfo env key true s) as [[[| |info]|e] s1]; done.
Qed.

Lemma clearCache_resets_tasks (s : State) : _tasks (snd (clearCache s)) = ∅.
Proof.
  unfold clearCache. cbv zeta. simpl.
  by destruct (fs_delete_cacheDir (rest s)).
Qed.

(** C4. For a key that is not a name every object inherits (for those no
    task is ever created), whatever way the task of the key settled
    (fulfilled or rejected), its entry stays in [_tasks]: a later call with
    the same key, through any factory, returns the stored result and leaves
    the whole state as it is (no factory runs); calls for other keys,
    [getIconInfo] and [getDataURL] keep the entry.  Only [deleteTask] on the
    key and [clearCache] remove it, after which the factory runs again. *)
Theorem UniqPromise_memo (env : Env)
    (fn fn' : Factory (option IconifyJSON) Error World) (id : string) (s : State) :
  inherited id = false ->
  let p := fst (UniqPromise fn id s) in
  let s1 := snd (UniqPromise fn id s) in
  _tasks s1 !! id = Some p
  /\ UniqPromise fn' id s1 = (p, s1)
  /\ (forall fn2 id2, _tasks (snd (UniqPromise fn2 id2 s1)) !! id = Some p)
  /\ (forall key allowAliases,
        _tasks (snd (getIconInfo env key allowAliases s1)) !! id = Some p)
  /\ (forall keyOrInfo fontSize,
        _tasks (snd (getDataURL env keyOrInfo fontSize s1)) !! id = Some p)
  /\ UniqPromise fn' id (snd (deleteTask id s1))
     = (fst (fn' id (rest s1)),
        mkDedup (<[id := fst (fn' id (rest s1))]> (_tasks s1)) (snd (fn' id (rest s1))))
  /\ (let s2 := snd (clearCache s1) in
      _tasks s2 = ∅
      /\ UniqPromise fn' id s2
         = (fst (fn' id (rest s2)),
            mkDedup {[id := fst (fn' id (rest s2))]} (snd (fn' id (rest s2))))).
Proof.
  intros _. cbv zeta. pose proof (UniqPromise_records fn id s) as Hrec.
  split_and!.
  - done.
  - rewrite (UniqPromise_stored fn' id _ _ Hrec). by destruct (UniqPromise fn id s).
  - intros fn2 id2. by apply UniqPromise_keeps.
  - intros key allowAliases. by apply getIconInfo_keeps_tasks.
  - intros keyOrInfo fontSize. by apply getDataURL_keeps_tasks.
  - apply deleteTask_then_UniqPromise.
  - apply clearCache_resets_tasks.
  - rewrite UniqPromise_fresh by (by rewrite clearCache_resets_tasks).
    by rewrite clearCache_resets_tasks, insert_empty.
Qed.

(** The download of [net] is stored under its key, and a second call, with
    a factory that would fail, returns the stored icon set. *)
Lemma UniqPromise_memo_witness :
  let s1 := snd (UniqPromise (loadIconSet demoEnv) "net" freshState) in
  inherited "net" = false
  /\ _tasks s1 !! "net" = Some (Fulfilled (Some netSet))
  /\ UniqPromise (fun _ w => (Rejected FetchError, w)) "net" s1
     = (Fulfilled (Some netSet), s1).
Proof.
  cbv zeta. split; [reflexivity|].
  destruct (UniqPromise_memo demoEnv (loadIconSet demoEnv)
              (fun _ w => (Rejected FetchError, w)) "net" freshState eq_refl)
    as (Hstored & Hagain & _).
  split; [exact Hstored|exact Hagain].
Defined.

(** A load that failed is remembered: the second call does not fetch again,
    even though the network would now answer. *)
Example LoadIconSet_failure_is_kept :
  let offline := mkEnv [] "https://cdn.example" false ∅ "#fff" split_colon
                   (fun _ => None) (fun s => s)
                   (fun body _ h => mkSVG [("height", h)] body) (fun _ => "32") in
  let s1 := snd (LoadIconSet offline "net" freshState) in
  fst (LoadIconSet offline "net" freshState) = Fulfilled None
  /\ LoadIconSet demoEnv "net" s1 = (Fulfilled None, s1)
  /\ fst (LoadIconSet demoEnv "net" (snd (deleteTask "net" s1))) = Fulfilled (Some netSet).
Proof. cbv zeta. split_and!; vm_compute; reflexivity. Qed.

(** ** [clearCache] *)

Lemma foldl_invariant {A B} (P : A -> Prop) (f : A -> B -> A) (l : list B) :
  (forall a b, P a -> P (f a b)) -> forall a, P a -> P (foldl f a l).
Proof.
  intros Hstep. induction l as [|b l IH]; intros a Ha; [done|].
  simpl. by apply IH, Hstep.
Qed.

(** What the loop over the legacy keys leaves in [globalState]. *)
Lemma clearCache_loop_globalState (ks : list string) : forall (w : World) (k : string),
  globalState (foldl clearCache_step w ks) !! k =
  if String.prefix "icons-" k && bool_decide (k ∈ ks) then None else globalState w !! k.
Proof.
  induction ks as [|id ks IH]; intros w k.
  - simpl. by rewrite andb_false_r.
  - simpl foldl. rewrite IH. unfold clearCache_step.
    destruct (String.prefix "icons-" k) eqn:Hk; simpl.
    + case_bool_decide as Hin.
      * rewrite bool_decide_eq_true_2; [done|]. by right.
      * destruct (decide (k = id)) as [->|Hne].
        -- rewrite bool_decide_eq_true_2 by left. rewrite Hk. simpl.
           apply lookup_delete_eq.
        -- rewrite bool_decide_eq_false_2.
           2:{ intros [?|?]%elem_of_cons; done. }
           destruct (String.prefix "icons-" id); [|done].
           simpl. by rewrite lookup_delete_ne.
    + destruct (String.prefix "icons-" id) eqn:Hid; [|done].
      simpl. rewrite lookup_delete_ne; [done|]. intros ->. congruence.
Qed.

Lemma clearCache_loop_others (ks : list string) (w : World) :
  loadedIconSets (foldl clearCache_step w ks) = loadedIconSets w
  /\ dataURLCache (foldl clearCache_step w ks) = dataURLCache w
  /\ cacheDir (foldl clearCache_step w ks) = cacheDir w
  /\ readOnly (foldl clearCache_step w ks) = readOnly w
  /\ logged (foldl clearCache_step w ks) = logged w.
Proof.
  revert w. induction ks as [|id ks IH]; intros w; [done|].
  simpl. destruct (IH (clearCache_step w id)) as (-> & -> & -> & -> & ->).
  unfold clearCache_step. by destruct (String.prefix "icons-" id).
Qed.

(** When the deletion of the cache folder goes through, [clearCache] does
    all that it is meant to do. *)
Lemma clearCache_clears (s : State) :
  cacheDir (rest s) = None \/ readOnly (rest s) = false ->
  exists s', clearCache s = (Fulfilled tt, s')
    /\ _tasks s' = ∅
    /\ loadedIconSets (rest s') = ∅
    /\ dataURLCache (rest s') = ∅
    /\ cacheDir (rest s') = None
    /\ (forall k, globalState (rest s') !! k =
          if String.prefix "icons-" k then None else globalState (rest s) !! k).
Proof.
  intros Hok.
  assert (Hdel : exists w, fs_delete_cacheDir (rest s) = inr w
            /\ cacheDir w = None /\ globalState w = globalState (rest s)).
  { unfold fs_delete_cacheDir.
    destruct (cacheDir (rest s)) as [files|] eqn:Hdir.
    - destruct Hok as [?|Hro]; [done|]. rewrite Hro. by eexists.
    - by eexists. }
  destruct Hdel as (w & Hdel & Hnodir & Hglobal).
  unfold clearCache. cbv zeta. simpl. rewrite Hdel.
  eexists. split; [reflexivity|]. simpl.
  destruct (clearCache_loop_others (globalState_keys w) w) as (_ & _ & Hc & _).
  split_and!; try done.
  - by rewrite Hc.
  - intros k. rewrite clearCache_loop_globalState, Hglobal.
    destruct (String.prefix "icons-" k); [|done]. simpl.
    case_bool_decide as Hin; [done|]. simpl. unfold globalState_keys in Hin.
    rewrite Hglobal in Hin.
    destruct (globalState (rest s) !! k) as [x|] eqn:Hx; [|done].
    exfalso. apply Hin, list_elem_of_fmap. exists (k, x).
    split; [done|]. by apply elem_of_map_to_list.
Qed.

(** C7, as the code has it.  [clearCache] empties [_tasks] in every case.
    When the cache folder does not exist it does not throw, and whenever
    the deletion of the folder goes through (there is no folder, or the
    storage accepts the deletion) it is fulfilled, removes every entry of
    the legacy store whose key starts with [icons-] (and no other), and
    empties the icon sets in memory and the data-URL cache; no folder is
    left.  When the storage refuses the deletion, the error leaves
    [clearCache] at line 68: the promise is rejected, and the legacy
    store, the icon sets in memory and the data-URL cache are as they
    were. *)
Theorem clearCache_clears_all (s : State) :
  _tasks (snd (clearCache s)) = ∅
  /\ (cacheDir (rest s) = None \/ readOnly (rest s) = false ->
      fst (clearCache s) = Fulfilled tt
      /\ loadedIconSets (rest (snd (clearCache s))) = ∅
      /\ dataURLCache (rest (snd (clearCache s))) = ∅
      /\ cacheDir (rest (snd (clearCache s))) = None
      /\ (forall k, globalState (rest (snd (clearCache s))) !! k =
            if String.prefix "icons-" k then None else globalState (rest s) !! k))
  /\ (is_Some (cacheDir (rest s)) -> readOnly (rest s) = true ->
      fst (clearCache s) = Rejected NoPermissions
      /\ rest (snd (clearCache s)) = rest s).
Proof.
  split_and!; [apply clearCache_resets_tasks| |].
  - intros Hok.
    destruct (clearCache_clears s Hok) as (s' & -> & _ & Hmem & Hurls & Hdir & Hglobal).
    simpl. by split_and!.
  - intros [files Hdir] Hro. unfold clearCache, fs_delete_cacheDir. cbv zeta.
    cbn [rest]. by rewrite Hdir, Hro.
Qed.

(** C7, as it was stated, fails: on a storage that refuses the deletion of
    the cache folder, [clearCache] is rejected, and the icon set, the data
    URL and the legacy entry of [lockedState] are still there; only
    [_tasks] was emptied. *)
Lemma clearCache_refused_counterexample :
  fst (clearCache lockedState) = Rejected NoPermissions
  /\ _tasks (snd (clearCache lockedState)) = ∅
  /\ loadedIconSets (rest (snd (clearCache lockedState))) !! "net" = Some netSet
  /\ is_Some (dataURLCache (rest (snd (clearCache lockedState))) !! "#fff32net:x")
  /\ globalState (rest (snd (clearCache lockedState))) !! "icons-old" = Some storedSet.
Proof. split_and!; try (vm_compute; reflexivity). by eexists. Qed.

(** A session that only used the custom collection [demo] never wrote to
    the cache folder, and has one data URL cached: [clearCache] goes
    through and the data URL is gone. *)
Lemma clearCache_clears_all_witness :
  let s := snd (getDataURL demoEnv (ByKey "demo:a") None freshState) in
  cacheDir (rest s) = None
  /\ size (dataURLCache (rest s)) = 1%nat
  /\ fst (clearCache s) = Fulfilled tt
  /\ dataURLCache (rest (snd (clearCache s))) = ∅.
Proof.
  cbv zeta. split; [vm_compute; reflexivity|]. split; [vm_compute; reflexivity|].
  destruct (clearCache_clears_all
              (snd (getDataURL demoEnv (ByKey "demo:a") None freshState)))
    as (_ & Hclears & _).
  destruct (Hclears (or_introl eq_refl)) as (Hok & _ & Hurls & _).
  by split.
Defined.

(** ** [LoadIconSet] *)

Lemma writeCache_fields (id : string) (data : IconifyJSON) (w : World) :
  loadedIconSets (writeCache id data w) = loadedIconSets w
  /\ dataURLCache (writeCache id data w) = dataURLCache w
  /\ globalState (writeCache id data w) = globalState w
  /\ readOnly (writeCache id data w) = readOnly w
  /\ (if readOnly w
      then cacheDir (writeCache id data w) = cacheDir w
           /\ logged (writeCache id data w) = (logged w ++ [LogError NoPermissions false])%list
      else cacheDir (writeCache id data w)
             = Some (<[id := IconSetFile (json_roundtrip data)]> (nullish_or (cacheDir w) ∅))
           /\ logged (writeCache id data w) = logged w).
Proof.
  unfold writeCache, fs_writeFile. by destruct (readOnly w) eqn:Hro.
Qed.

(** [loadCache] answers with the icon set of the file, when the file exists
    and holds one, and with nothing otherwise. *)
Lemma loadCache_stored_file (id : string) (w : World) :
  loadCache id w = match stored_file id w with
                   | Some (IconSetFile data) => Some data
                   | Some CorruptFile | None => None
                   end.
Proof.
  unfold loadCache, fs_readFile, stored_file.
  destruct (cacheDir w) as [files|]; [|done].
  by destruct (files !! id) as [[data|]|].
Qed.

(** C3. A call of [LoadIconSet] that runs the factory ([!_tasks[id]]: no
    task is stored for the key, and the key is not a name that every object
    inherits), with [loadedIconSets] a plain dictionary after the legacy
    migration, runs that migration and then takes the first source that has
    the icon set, in this order:
    the map [loadedIconSets]; the custom collections, by prefix; the file
    [{id}.json] of the cache folder when it holds an icon set, which is then
    copied into [loadedIconSets]; the download of [{cdnEntry}/{id}.json],
    which is then copied into [loadedIconSets] and written to the cache
    folder (as JSON).  A write that fails is logged and the download is
    returned all the same; a download that fails is logged and the call is
    fulfilled with [undefined], not rejected.  No download is started when
    an earlier source answers, and a file that is missing or unusable is
    passed over. *)
Theorem LoadIconSet_resolution_order (env : Env) (id : string) (s : State) :
  inherited id = false ->
  _tasks s !! id = None ->
  loadedIconSets (migrateCache (rest s)) !! "__proto__" = None ->
  let w := migrateCache (rest s) in
  let url := cdnEntry env ++ "/" ++ id ++ ".json" in
  let r := fst (LoadIconSet env id s) in
  let w' := rest (snd (LoadIconSet env id s)) in
  let download :=
    match fetch env url with
    | Some data =>
      r = Fulfilled (Some data)
      /\ loadedIconSets w' = <[id := data]> (loadedIconSets w)
      /\ (if readOnly w
          then cacheDir w' = cacheDir w
               /\ logged w' = (logged w ++ [InfoDownloading id url; InfoDownloaded id;
                                            LogError NoPermissions false])%list
          else cacheDir w'
                 = Some (<[id := IconSetFile (json_roundtrip data)]>
                           (nullish_or (cacheDir w) ∅))
               /\ logged w' = (logged w ++ [InfoDownloading id url;
                                            InfoDownloaded id])%list)
    | None =>
      r = Fulfilled None
      /\ loadedIconSets w' = loadedIconSets w
      /\ cacheDir w' = cacheDir w
      /\ logged w' = (logged w ++ [InfoDownloading id url;
                                   LogError FetchError true])%list
    end in
  _tasks (snd (LoadIconSet env id s)) = <[id := r]> (_tasks s)
  /\ match loadedIconSets w !! id with
     | Some d => r = Fulfilled (Some d) /\ w' = w
     | None =>
       match List.find (fun c => String.eqb (prefix c) id) (customCollections env) with
       | Some c => r = Fulfilled (Some c) /\ w' = w
       | None =>
         match stored_file id w with
         | Some (IconSetFile cached) =>
           r = Fulfilled (Some cached)
           /\ loadedIconSets w' = <[id := cached]> (loadedIconSets w)
           /\ cacheDir w' = cacheDir w
           /\ logged w' = (logged w ++ [InfoLoadedFromDisk id])%list
         | Some CorruptFile => download
         | None => download
         end
       end
     end.
Proof.
  intros _ Htask _. cbv zeta. unfold LoadIconSet.
  rewrite (UniqPromise_fresh (loadIconSet env) id s Htask). simpl.
  split; [done|]. unfold loadIconSet. cbv zeta.
  destruct (loadedIconSets (migrateCache (rest s)) !! id) as [d|]; [done|].
  destruct (List.find _ (customCollections env)) as [c|]; [done|].
  rewrite loadCache_stored_file.
  destruct (stored_file id (migrateCache (rest s))) as [[cached|]|];
    [simpl; done| |].
  all: destruct (fetch env _) as [data|];
    [|simpl; split_and!; try done; by rewrite <- app_assoc].
  all: simpl; split; [done|].
  all: destruct (writeCache_fields id data
         (with_loadedIconSets
            (<[id := data]> (loadedIconSets (migrateCache (rest s))))
            (Log (InfoDownloaded id)
               (Log (InfoDownloading id (cdnEntry env ++ "/" ++ id ++ ".json"))
                  (migrateCache (rest s))))))
         as (Hl & _ & _ & _ & Hw).
  all: rewrite Hl; simpl in *; split; [done|].
  all: destruct (readOnly (migrateCache (rest s))); destruct Hw as [-> ->];
         split; try done; by rewrite <- !app_assoc.
Qed.

(** On a storage whose cache folder holds a file for [demo], the icon set
    of the file is served and kept in memory once no custom collection has
    that prefix; [net], which no earlier source has, is downloaded and
    written to the folder. *)
Lemma LoadIconSet_resolution_order_witness :
  let fromDisk := LoadIconSet bareEnv "demo" diskState in
  let fromNet := LoadIconSet bareEnv "net" diskState in
  (fst fromDisk = Fulfilled (Some storedSet)
   /\ loadedIconSets (rest (snd fromDisk)) = <["demo" := storedSet]> ∅
   /\ logged (rest (snd fromDisk)) = [InfoLoadedFromDisk "demo"])
  /\ (fst fromNet = Fulfilled (Some netSet)
      /\ loadedIconSets (rest (snd fromNet)) = <["net" := netSet]> ∅
      /\ stored_file "net" (rest (snd fromNet)) = Some (IconSetFile netSet)).
Proof.
  cbv zeta. split.
  - destruct (LoadIconSet_resolution_order bareEnv "demo" diskState
                eq_refl eq_refl eq_refl) as (_ & Hr & Hl & _ & Hlog).
    split; [exact Hr|]. split; [exact Hl | exact Hlog].
  - destruct (LoadIconSet_resolution_order bareEnv "net" diskState
                eq_refl eq_refl eq_refl) as (_ & Hr & Hl & Hdir & _).
    split; [exact Hr|]. split; [exact Hl|].
    unfold stored_file. rewrite Hdir. reflexivity.
Defined.

(** The four sources, and the two failures, on examples: the memory wins
    over the custom collection, which wins over the file, which wins over
    the network. *)
Example LoadIconSet_priorities :
  let other := mkJSON "demo" ∅ ∅ (Some 1%float) None None None in
  let third := mkJSON "demo" ∅ ∅ (Some 2%float) None None None in
  let onDisk := mkWorld ∅ ∅ ∅ (Some (<["demo" := IconSetFile third]> ∅)) false [] in
  let inMemory := mkWorld (<["demo" := other]> ∅) ∅ ∅
                    (Some (<["demo" := IconSetFile third]> ∅)) false [] in
  let noCustom := mkEnv [] "https://cdn.example" false ∅ "#fff" split_colon
                    (fetch demoEnv) (fun s => s)
                    (fun body _ h => mkSVG [("height", h)] body) (fun _ => "32") in
  let locked := mkWorld ∅ ∅ ∅ None true [] in
  fst (LoadIconSet demoEnv "demo" (mkDedup ∅ inMemory)) = Fulfilled (Some other)
  /\ fst (LoadIconSet demoEnv "demo" (mkDedup ∅ onDisk)) = Fulfilled (Some demoSet)
  /\ fst (LoadIconSet noCustom "demo" (mkDedup ∅ onDisk)) = Fulfilled (Some third)
  /\ fst (LoadIconSet noCustom "net" (mkDedup ∅ onDisk)) = Fulfilled (Some netSet)
  /\ fst (LoadIconSet noCustom "net" (mkDedup ∅ locked)) = Fulfilled (Some netSet)
  /\ cacheDir (rest (snd (LoadIconSet noCustom "net" (mkDedup ∅ locked)))) = None
  /\ fst (LoadIconSet noCustom "gone" (mkDedup ∅ onDisk)) = Fulfilled None.
Proof. cbv zeta. split_and!; vm_compute; reflexivity. Qed.

(** ** The data-URL cache *)

Lemma toDataUrl_nonempty (env : Env) (str : string) : toDataUrl env str <> "".
Proof. unfold toDataUrl. simpl. discriminate. Qed.

Lemma migrateCache_dataURLCache (w : World) :
  dataURLCache (migrateCache w) = dataURLCache w.
Proof.
  unfold migrateCache.
  apply (foldl_invariant (fun w' => dataURLCache w' = dataURLCache w)); [|done].
  intros a key Ha. unfold migrateCache_step.
  destruct (String.prefix "icons-" key); [|done].
  destruct (globalState a !! key) as [cached|]; [|done]. simpl.
  by rewrite (proj1 (proj2 (writeCache_fields _ cached _))).
Qed.

Lemma loadIconSet_dataURLCache (env : Env) (id : string) (w : World) :
  dataURLCache (snd (loadIconSet env id w)) = dataURLCache w.
Proof.
  unfold loadIconSet. cbv zeta.
  destruct (loadedIconSets (migrateCache w) !! id);
    [simpl; apply migrateCache_dataURLCache|].
  destruct (List.find _ (customCollections env));
    [simpl; apply migrateCache_dataURLCache|].
  destruct (loadCache id (migrateCache w));
    [simpl; apply migrateCache_dataURLCache|].
  destruct (fetch env _); simpl; [|apply migrateCache_dataURLCache].
  rewrite (proj1 (proj2 (writeCache_fields _ _ _))). simpl.
  apply migrateCache_dataURLCache.
Qed.

Lemma LoadIconSet_dataURLCache (env : Env) (id : string) (s : State) :
  dataURLCache (rest (snd (LoadIconSet env id s))) = dataURLCache (rest s).
Proof.
  unfold LoadIconSet. destruct (_tasks s !! id) as [p|] eqn:Hp.
  - by rewrite (UniqPromise_stored _ _ _ _ Hp).
  - rewrite (UniqPromise_fresh _ _ _ Hp). simpl. apply loadIconSet_dataURLCache.
Qed.

(** [getIconInfo] does not touch the data-URL cache. *)
Lemma getIconInfo_dataURLCache (env : Env) (key : string) (allowAliases : bool)
    (s : State) :
  dataURLCache (rest (snd (getIconInfo env key allowAliases s))) = dataURLCache (rest s).
Proof.
  unfold getIconInfo.
  destruct (actualKey env key allowAliases) as [ak|]; [|done].
  destruct (parseIcon env ak) as [[collection name]|]; [|done].
  pose proof (LoadIconSet_dataURLCache env collection s) as Hload.
  destruct (LoadIconSet env collection s) as [[[data|]|e] s1]; try done.
  by destruct (resolveIconData data name).
Qed.

(** [getDataURL] on a key whose entry is missing: the outcome is that of a
    new [getIconInfo]. *)
Lemma getDataURL_miss (env : Env) (key : string) (fontSize : option Number) (s : State) :
  dataURLCache (rest s) !! cacheKey env fontSize key = None ->
  getDataURL env (ByKey key) fontSize s =
  match getIconInfo env key true s with
  | (Rejected e, s1) => (Rejected e, s1)
  | (Fulfilled (Found info), s1) =>
    let url := toDataUrl env (replaceAll "currentColor" (color env)
                 (pathToSvg env info (nullish_or fontSize 32%float))) in
    (Fulfilled url,
     mkDedup (_tasks s1)
       (with_dataURLCache (<[cacheKey env fontSize key := url]> (dataURLCache (rest s1)))
          (rest s1)))
  | (Fulfilled _, s1) => (Fulfilled "", s1)
  end.
Proof.
  intros Hmiss. unfold getDataURL. cbv zeta. rewrite Hmiss.
  by destruct (getIconInfo env key true s) as [[[| |info]|e] s1].
Qed.

Lemma getDataURL_urls_nonempty (env : Env) (keyOrInfo : KeyOrInfo)
    (fontSize : option Number) (s : State) :
  urls_nonempty (rest s) ->
  urls_nonempty (rest (snd (getDataURL env keyOrInfo fontSize s))).
Proof.
  intros Hinv. unfold getDataURL. cbv zeta.
  destruct (match dataURLCache (rest s) !! _ with Some _ => _ | None => _ end); [done|].
  assert (Hstore : forall (s1 : State) ck info,
    urls_nonempty (rest s1) ->
    urls_nonempty (with_dataURLCache
      (<[ck := toDataUrl env (replaceAll "currentColor" (color env)
                 (pathToSvg env info (nullish_or fontSize 32%float)))]>
         (dataURLCache (rest s1))) (rest s1))).
  { intros s1 ck info H1 k url. simpl. rewrite lookup_insert.
    case_decide; [intros [= <-]; apply toDataUrl_nonempty|apply H1]. }
  destruct keyOrInfo as [key|info]; [|by apply Hstore].
  pose proof (getIconInfo_dataURLCache env key true s) as Hsame.
  destruct (getIconInfo env key true s) as [[[| |info]|e] s1]; simpl in *;
    try (unfold urls_nonempty; by rewrite Hsame).
  apply Hstore. unfold urls_nonempty. by rewrite Hsame.
Qed.

Lemma clearCache_urls_nonempty (s : State) :
  urls_nonempty (rest s) -> urls_nonempty (rest (snd (clearCache s))).
Proof.
  intros Hinv. unfold clearCache. cbv zeta. simpl.
  destruct (fs_delete_cacheDir (rest s)); [done|].
  intros k url. simpl. by rewrite lookup_empty.
Qed.

(** C10. The data-URL cache only holds non-empty strings: the property
    holds of the empty cache and is kept by [getDataURL] and by
    [clearCache] (and nothing else writes the cache).  A call of
    [getDataURL] that returns the empty string has inserted nothing, and the
    key is still missing afterwards; on a state where the key is missing,
    [getDataURL] asks [getIconInfo] again, and returns and stores a non-empty
    URL as soon as the icon is found. *)
Theorem dataURLCache_holds_no_failure (env : Env) (key : string)
    (fontSize : option Number) (s : State) :
  urls_nonempty emptyWorld
  /\ (forall keyOrInfo,
        urls_nonempty (rest s) ->
        urls_nonempty (rest (snd (getDataURL env keyOrInfo fontSize s)))
        /\ urls_nonempty (rest (snd (clearCache s))))
  /\ (forall allowAliases,
        dataURLCache (rest (snd (getIconInfo env key allowAliases s)))
        = dataURLCache (rest s))
  /\ (urls_nonempty (rest s) ->
      fst (getDataURL env (ByKey key) fontSize s) = Fulfilled "" ->
      let s1 := snd (getDataURL env (ByKey key) fontSize s) in
      dataURLCache (rest s1) = dataURLCache (rest s)
      /\ dataURLCache (rest s1) !! cacheKey env fontSize key = None
      /\ (fst (getIconInfo env key true s) = Fulfilled Null
          \/ fst (getIconInfo env key true s) = Fulfilled Undefined))
  /\ (forall (s2 s3 : State) (info : IconInfo),
        dataURLCache (rest s2) !! cacheKey env fontSize key = None ->
        getIconInfo env key true s2 = (Fulfilled (Found info), s3) ->
        exists url,
          fst (getDataURL env (ByKey key) fontSize s2) = Fulfilled url
          /\ url <> ""
          /\ dataURLCache (rest (snd (getDataURL env (ByKey key) fontSize s2)))
               !! cacheKey env fontSize key = Some url).
Proof.
  split_and!.
  - intros k url. simpl. by rewrite lookup_empty.
  - intros keyOrInfo Hinv. split.
    + by apply getDataURL_urls_nonempty.
    + by apply clearCache_urls_nonempty.
  - intros allowAliases. apply getIconInfo_dataURLCache.
  - intros Hinv Hempty. cbv zeta.
    destruct (dataURLCache (rest s) !! cacheKey env fontSize key) as [url|] eqn:Hlook.
    + exfalso. revert Hempty. unfold getDataURL. cbv zeta.
      rewrite Hlook.
      pose proof (Hinv _ _ Hlook) as Hne.
      destruct url as [|c url]; [done|]. simpl. intros [= ?].
    + revert Hempty. rewrite (getDataURL_miss env key fontSize s Hlook).
      pose proof (getIconInfo_dataURLCache env key true s) as Hsame.
      destruct (getIconInfo env key true s) as [[[| |info]|e] s1]; simpl in *;
        intros Hempty; try discriminate.
      * rewrite Hsame. split_and!; [done|done|by right].
      * rewrite Hsame. split_and!; [done|done|by left].
  - intros s2 s3 info Hmiss Hfound.
    rewrite (getDataURL_miss env key fontSize s2 Hmiss), Hfound. cbv zeta. simpl.
    eexists. split_and!; [reflexivity|apply toDataUrl_nonempty|apply lookup_insert_eq].
Qed.

(** Offline, the data URL of [net:x] cannot be made: the call returns the
    empty string and stores nothing.  Once the task of [net] is forgotten
    and the network answers, the same request gives the data URL. *)
Lemma dataURLCache_holds_no_failure_witness :
  let offline := mkEnv [] "https://cdn.example" false ∅ "#fff" split_colon
                   (fun _ => None) (fun s => s)
                   (fun body _ h => mkSVG [("height", h)] body) (fun _ => "32") in
  let s1 := snd (getDataURL offline (ByKey "net:x") None freshState) in
  fst (getDataURL offline (ByKey "net:x") None freshState) = Fulfilled ""
  /\ dataURLCache (rest s1) = ∅
  /\ exists url,
       fst (getDataURL demoEnv (ByKey "net:x") None (snd (deleteTask "net" s1)))
       = Fulfilled url /\ url <> "".
Proof.
  cbv zeta.
  destruct (dataURLCache_holds_no_failure
              (mkEnv [] "https://cdn.example" false ∅ "#fff" split_colon
                 (fun _ => None) (fun s => s)
                 (fun body _ h => mkSVG [("height", h)] body) (fun _ => "32"))
              "net:x" None freshState) as (Hinit & _ & _ & Hfail & _).
  assert (Hret : fst (getDataURL
                        (mkEnv [] "https://cdn.example" false ∅ "#fff" split_colon
                           (fun _ => None) (fun s => s)
                           (fun body _ h => mkSVG [("height", h)] body) (fun _ => "32"))
                        (ByKey "net:x") None freshState) = Fulfilled "")
    by (vm_compute; reflexivity).
  destruct (Hfail Hinit Hret) as (Hsame & _ & _).
  split; [exact Hret|]. split; [exact Hsame|].
  eexists. split; [vm_compute; reflexivity|discriminate].
Defined.

(** * Further properties *)

(** ** Strings *)

Lemma append_cons (c : ascii) (p s : string) : String c p ++ s = String c (p ++ s).
Proof. reflexivity. Qed.

Lemma append_empty (s : string) : "" ++ s = s.
Proof. reflexivity. Qed.

Lemma prefix_append (p s : string) : String.prefix p (p ++ s) = true.
Proof.
  induction p as [|c p IH]; [by destruct s|].
  rewrite append_cons. simpl. destruct (ascii_dec c c); [done|congruence].
Qed.

Lemma substring_whole (s : string) : String.substring 0 (String.length s) s = s.
Proof. induction s as [|c s IH]; [done|]. simpl. by f_equal. Qed.

Lemma prefix_split (p : string) : forall s,
  String.prefix p s = true -> s = p ++ slice_from (String.length p) s.
Proof.
  unfold slice_from. induction p as [|c p IH]; intros s Hp.
  - simpl. by rewrite append_empty, Nat.sub_0_r, substring_whole.
  - destruct s as [|c' s]; [done|]. simpl in Hp.
    destruct (ascii_dec c c') as [->|]; [|done].
    rewrite append_cons. simpl. f_equal. by apply IH.
Qed.

Lemma slice_from_append (p s : string) : slice_from (String.length p) (p ++ s) = s.
Proof.
  unfold slice_from. induction p as [|c p IH].
  - simpl. by rewrite append_empty, Nat.sub_0_r, substring_whole.
  - rewrite append_cons. simpl. done.
Qed.

Lemma append_inv_head (p s t : string) : p ++ s = p ++ t -> s = t.
Proof.
  induction p as [|c p IH]; [by rewrite !append_empty|].
  rewrite !append_cons. intros [= H]. by apply IH.
Qed.

Lemma legacyKey_prefix (id : string) : String.prefix "icons-" (legacyKey id) = true.
Proof. apply prefix_append. Qed.

Lemma legacyKey_split (key : string) :
  String.prefix "icons-" key = true ->
  key = legacyKey (slice_from (String.length "icons-") key).
Proof. apply prefix_split. Qed.

Lemma legacyKey_inj (id id' : string) : legacyKey id = legacyKey id' -> id = id'.
Proof. apply append_inv_head. Qed.

(** ** The legacy migration *)

Lemma fs_readFile_stored_file (id : string) (w : World) :
  fs_readFile id w = match stored_file id w with
                     | Some c => inr c
                     | None => inl FileNotFound
                     end.
Proof.
  unfold fs_readFile, stored_file. destruct (cacheDir w) as [files|]; [|done].
  by destruct (files !! id).
Qed.

Lemma stored_file_fs_readFile (id : string) (w : World) :
  stored_file id w = match fs_readFile id w with
                     | inr c => Some c
                     | inl _ => None
                     end.
Proof. rewrite fs_readFile_stored_file. by destruct (stored_file id w). Qed.

Lemma fs_readFile_writeCache (id id' : string) (data : IconifyJSON) (w : World) :
  fs_readFile id' (writeCache id data w) =
  if readOnly w then fs_readFile id' w
  else if bool_decide (id' = id) then inr (IconSetFile (json_roundtrip data))
  else fs_readFile id' w.
Proof.
  unfold writeCache, fs_writeFile, fs_readFile.
  destruct (readOnly w); [done|].
  cbn [cacheDir with_cacheDir]. case_bool_decide as Hid.
  - subst. by rewrite lookup_insert_eq.
  - rewrite lookup_insert_ne by done. destruct (cacheDir w); [done|].
    simpl. by rewrite lookup_empty.
Qed.

(** One turn of the loop of [migrateCache], on a key that is still stored. *)
Lemma migrateCache_step_spec (w : World) (key : string) :
  is_Some (globalState w !! key) ->
  (String.prefix "icons-" key = false /\ migrateCache_step w key = w)
  \/ (exists id d,
        key = legacyKey id
        /\ globalState w !! key = Some d
        /\ globalState (migrateCache_step w key) = delete key (globalState w)
        /\ loadedIconSets (migrateCache_step w key) = <[id := d]> (loadedIconSets w)
        /\ readOnly (migrateCache_step w key) = readOnly w
        /\ (forall id', fs_readFile id' (migrateCache_step w key) =
              if readOnly w then fs_readFile id' w
              else if bool_decide (id' = id) then inr (IconSetFile (json_roundtrip d))
              else fs_readFile id' w)
        /\ (readOnly w = true -> cacheDir (migrateCache_step w key) = cacheDir w)).
Proof.
  intros [d Hd]. unfold migrateCache_step.
  destruct (String.prefix "icons-" key) eqn:Hp; [right|by left].
  rewrite Hd. set (id := slice_from (String.length "icons-") key).
  exists id, d.
  pose proof (writeCache_fields id d
    (with_loadedIconSets (<[id := d]> (loadedIconSets w)) w))
    as (Hl & _ & Hg & Hr & Hc).
  pose proof (fs_readFile_writeCache id) as Hf.
  unfold Log, globalState_remove, with_globalState, with_loadedIconSets, fs_readFile in *.
  cbn [globalState loadedIconSets readOnly cacheDir dataURLCache logged] in *.
  split_and!.
  - by apply legacyKey_split.
  - done.
  - by rewrite Hg.
  - by rewrite Hl.
  - by rewrite Hr.
  - intros id'. by rewrite Hf.
  - intros Hro. rewrite Hro in Hc |- *. by destruct Hc as [-> _].
Qed.

Lemma migrateCache_step_keeps (w : World) (key : string) (ks : list string) :
  key ∉ ks ->
  (forall k, k ∈ ks -> is_Some (globalState w !! k)) ->
  forall k, k ∈ ks -> is_Some (globalState (migrateCache_step w key) !! k).
Proof.
  intros Hnew Hall k Hk. unfold migrateCache_step.
  destruct (String.prefix "icons-" key); [|by apply Hall].
  destruct (globalState w !! key) as [d|]; [|by apply Hall].
  unfold Log, globalState_remove, with_globalState.
  cbn [globalState]. rewrite (proj1 (proj2 (proj2 (writeCache_fields _ _ _)))).
  cbn [globalState with_loadedIconSets].
  rewrite lookup_delete_ne; [by apply Hall|]. intros ->. done.
Qed.

Section MigrationLoop.
Implicit Types (w : World) (ks : list string).

(** The legacy store after the loop: the visited legacy keys are gone. *)
Lemma migrateCache_loop_globalState ks : NoDup ks -> forall w,
  (forall k, k ∈ ks -> is_Some (globalState w !! k)) ->
  forall k, globalState (foldl migrateCache_step w ks) !! k =
    if String.prefix "icons-" k && bool_decide (k ∈ ks) then None
    else globalState w !! k.
Proof.
  induction 1 as [|key ks Hnew Hnd IH]; intros w Hall k.
  { simpl. by rewrite andb_false_r. }
  simpl foldl.
  rewrite IH by (apply migrateCache_step_keeps; [done|];
                 intros k' Hk'; apply Hall; by right).
  destruct (migrateCache_step_spec w key (Hall key ltac:(left)))
    as [[Hp ->]|(id & d & -> & Hd & Hg & _)].
  - destruct (String.prefix "icons-" k) eqn:Hk; [|done]. simpl.
    assert (k <> key) by (intros ->; congruence).
    case_bool_decide as Hin.
    + rewrite bool_decide_eq_true_2; [done|by right].
    + rewrite bool_decide_eq_false_2; [done|].
      by intros [?|?]%elem_of_cons.
  - rewrite Hg. destruct (decide (k = legacyKey id)) as [->|Hne].
    + rewrite legacyKey_prefix, lookup_delete_eq. simpl.
      rewrite (bool_decide_eq_true_2 (_ ∈ _ :: _)) by left.
      by case_bool_decide.
    + rewrite lookup_delete_ne by done.
      destruct (String.prefix "icons-" k); [|done]. simpl.
      case_bool_decide as Hin.
      * rewrite bool_decide_eq_true_2; [done|by right].
      * rewrite bool_decide_eq_false_2; [done|].
        by intros [?|?]%elem_of_cons.
Qed.


(** The files after the loop: on a storage that accepts writes, every
    visited legacy entry has its file. *)
Lemma migrateCache_loop_files ks : NoDup ks -> forall w,
  (forall k, k ∈ ks -> is_Some (globalState w !! k)) ->
  readOnly (foldl migrateCache_step w ks) = readOnly w
  /\ (readOnly w = true -> cacheDir (foldl migrateCache_step w ks) = cacheDir w)
  /\ forall id, fs_readFile id (foldl migrateCache_step w ks) =
       if negb (readOnly w) && bool_decide (legacyKey id ∈ ks)
       then match globalState w !! legacyKey id with
            | Some d => inr (IconSetFile (json_roundtrip d))
            | None => fs_readFile id w
            end
       else fs_readFile id w.
Proof.
  induction 1 as [|key ks Hnew Hnd IH]; intros w Hall.
  { simpl. split_and!; [done|done|]. intros id. by rewrite andb_false_r. }
  simpl foldl.
  destruct (IH (migrateCache_step w key)) as (IHr & IHc & IHf).
  { apply migrateCache_step_keeps; [done|]. intros k' Hk'. apply Hall. by right. }
  destruct (migrateCache_step_spec w key (Hall key ltac:(left)))
    as [[Hp Hw]|(id0 & d & -> & Hd & Hg & Hl & Hr & Hf & Hc)].
  - rewrite Hw in *. split_and!; [done|done|]. intros id. rewrite IHf.
    assert (legacyKey id <> key)
      by (intros <-; by rewrite legacyKey_prefix in Hp).
    destruct (readOnly w); [done|]. simpl.
    case_bool_decide as Hin.
    + rewrite bool_decide_eq_true_2; [done|by right].
    + rewrite bool_decide_eq_false_2; [done|]. by intros [?|?]%elem_of_cons.
  - split_and!.
    + by rewrite IHr.
    + intros Hro. rewrite IHc by (by rewrite Hr). by apply Hc.
    + intros id. rewrite IHf, Hr, Hg, Hf.
      destruct (readOnly w); [done|]. simpl.
      destruct (decide (id = id0)) as [->|Hne].
      * rewrite (bool_decide_eq_false_2 (_ ∈ ks)) by done.
        rewrite (bool_decide_eq_true_2 (_ ∈ _ :: _)) by left.
        rewrite Hd. by rewrite (bool_decide_eq_true_2 (id0 = id0)).
      * assert (legacyKey id <> legacyKey id0) by (by intros ?%legacyKey_inj).
        rewrite lookup_delete_ne by done.
        rewrite (bool_decide_eq_false_2 (id = id0)) by done.
        case_bool_decide as Hin.
        -- rewrite bool_decide_eq_true_2; [done|by right].
        -- rewrite bool_decide_eq_false_2; [done|]. by intros [?|?]%elem_of_cons.
Qed.
End MigrationLoop.

Lemma globalState_keys_stored (w : World) (k : string) :
  k ∈ globalState_keys w <-> is_Some (globalState w !! k).
Proof.
  unfold globalState_keys. rewrite list_elem_of_fmap. split.
  - intros ([k' d] & -> & Hin). apply elem_of_map_to_list in Hin. by eexists.
  - intros [d Hd]. exists (k, d). split; [done|]. by apply elem_of_map_to_list.
Qed.

Lemma globalState_keys_NoDup (w : World) : NoDup (globalState_keys w).
Proof. apply NoDup_fst_map_to_list. Qed.

(** A store without legacy keys is left alone. *)
Lemma migrateCache_nothing_to_do (w : World) :
  (forall k, is_Some (globalState w !! k) -> String.prefix "icons-" k = false) ->
  migrateCache w = w.
Proof.
  intros Hnone. unfold migrateCache.
  assert (Hks : forall k, k ∈ globalState_keys w -> String.prefix "icons-" k = false)
    by (intros k Hk; by apply Hnone, globalState_keys_stored).
  induction (globalState_keys w) as [|key ks IH]; [done|].
  simpl. unfold migrateCache_step at 2. rewrite (Hks key) by left.
  apply IH. intros k Hk. apply Hks. by right.
Qed.

Lemma migrateCache_globalState (w : World) (k : string) :
  globalState (migrateCache w) !! k =
  if String.prefix "icons-" k then None else globalState w !! k.
Proof.
  unfold migrateCache.
  rewrite migrateCache_loop_globalState;
    [|apply globalState_keys_NoDup|by intros k' ?%globalState_keys_stored].
  destruct (String.prefix "icons-" k); [|done]. simpl.
  case_bool_decide as Hin; [done|].
  destruct (globalState w !! k) eqn:Hk; [|done].
  exfalso. apply Hin, globalState_keys_stored. by eexists.
Qed.

Lemma migrateCache_no_legacy_left (w : World) (k : string) :
  is_Some (globalState (migrateCache w) !! k) -> String.prefix "icons-" k = false.
Proof.
  rewrite migrateCache_globalState.
  destruct (String.prefix "icons-" k); [by intros [? ?]|done].
Qed.

Lemma migrateCache_readOnly (w : World) : readOnly (migrateCache w) = readOnly w.
Proof.
  by destruct (migrateCache_loop_files (globalState_keys w) (globalState_keys_NoDup w) w)
    as (Hr & _); [by intros k' ?%globalState_keys_stored|].
Qed.


(** X2. On a storage that accepts writes, [migrateCache] leaves for every
    legacy entry [icons-{id}] the file [{id}.json] holding the entry as
    JSON, in place of whatever file was there, touches no other file, and
    creates the cache folder exactly when there is a legacy entry.  On a
    storage that refuses writes the cache folder is unchanged (while the
    legacy entries are removed all the same). *)
Theorem migrateCache_persists_legacy (w : World) :
  (forall id, stored_file id (migrateCache w) =
     if readOnly w then stored_file id w
     else match globalState w !! legacyKey id with
          | Some d => Some (IconSetFile (json_roundtrip d))
          | None => stored_file id w
          end)
  /\ (readOnly w = true -> cacheDir (migrateCache w) = cacheDir w)
  /\ (readOnly w = false ->
      (cacheDir (migrateCache w) = None <->
       cacheDir w = None /\ forall id, globalState w !! legacyKey id = None))
  /\ readOnly (migrateCache w) = readOnly w.
Proof.
  destruct (migrateCache_loop_files (globalState_keys w) (globalState_keys_NoDup w) w)
    as (Hr & Hc & Hf); [by intros k' ?%globalState_keys_stored|].
  fold (migrateCache w) in Hr, Hc, Hf.
  assert (Hfiles : forall id, stored_file id (migrateCache w) =
     if readOnly w then stored_file id w
     else match globalState w !! legacyKey id with
          | Some d => Some (IconSetFile (json_roundtrip d))
          | None => stored_file id w
          end).
  { intros id. rewrite !stored_file_fs_readFile, Hf.
    destruct (readOnly w); [done|]. simpl.
    case_bool_decide as Hin.
    - by destruct (globalState w !! legacyKey id).
    - destruct (globalState w !! legacyKey id) eqn:Hk; [|done].
      exfalso. apply Hin, globalState_keys_stored. by eexists. }
  split_and!; [done|done| |done].
  intros Hro. split.
  - intros Hnone.
    assert (Hlegacy : forall id, globalState w !! legacyKey id = None).
    { intros id. specialize (Hfiles id). rewrite Hro in Hfiles.
      unfold stored_file in Hfiles at 1. rewrite Hnone in Hfiles.
      by destruct (globalState w !! legacyKey id). }
    split; [|done].
    rewrite migrateCache_nothing_to_do in Hnone; [done|].
    intros k [d Hd]. destruct (String.prefix "icons-" k) eqn:Hp; [|done].
    rewrite (legacyKey_split k Hp), Hlegacy in Hd. done.
  - intros [Hnone Hlegacy].
    rewrite migrateCache_nothing_to_do; [done|].
    intros k [d Hd]. destruct (String.prefix "icons-" k) eqn:Hp; [|done].
    rewrite (legacyKey_split k Hp), Hlegacy in Hd. done.
Qed.

(** X3. [migrateCache] is idempotent: a second run finds no legacy entry
    and changes nothing, not even the log. *)
Theorem migrateCache_idempotent (w : World) :
  migrateCache (migrateCache w) = migrateCache w.
Proof. apply migrateCache_nothing_to_do, migrateCache_no_legacy_left. Qed.

Lemma json_number_idempotent (x : option Number) :
  json_number (json_number x) = json_number x.
Proof.
  destruct x as [v|]; [|done]. unfold json_number.
  destruct (is_nan v || is_infinity v) eqn:Hv; [done|].
  destruct (is_zero v) eqn:Hz; [done|]. by rewrite Hv, Hz.
Qed.

Lemma json_optional_idempotent (o : IconifyOptional) :
  json_optional (json_optional o) = json_optional o.
Proof.
  unfold json_optional. cbn [left top width height rotate hFlip vFlip].
  by rewrite !json_number_idempotent.
Qed.

Lemma json_roundtrip_idempotent (data : IconifyJSON) :
  json_roundtrip (json_roundtrip data) = json_roundtrip data.
Proof.
  unfold json_roundtrip.
  cbn [prefix icons aliases set_left set_top set_width set_height].
  rewrite !json_number_idempotent, <- !map_fmap_compose. f_equal.
  - apply map_fmap_ext. intros k i _. unfold compose, json_icon.
    cbn [body icon_props]. by rewrite json_optional_idempotent.
  - apply map_fmap_ext. intros k a _. unfold compose, json_alias.
    cbn [parent alias_props]. by rewrite json_optional_idempotent.
Qed.

(** X4. What [writeCache] stores for an icon set, its JSON text, is what
    [loadCache] reads back: the icon set as [JSON.parse] returns it
    ([-0] has become [0], and [NaN] and the infinities are missing), which
    is written and read again without further change.  The files of the
    other icon sets are kept, whether the folder existed or not; when the
    storage refuses the write, every file is as before and one error is
    logged without prompting the user. *)
Theorem writeCache_loadCache (id id' : string) (data : IconifyJSON) (w : World) :
  stored_file id' (writeCache id data w) =
    (if readOnly w then stored_file id' w
     else if bool_decide (id' = id) then Some (IconSetFile (json_roundtrip data))
     else stored_file id' w)
  /\ loadCache id' (writeCache id data w) =
    (if readOnly w then loadCache id' w
     else if bool_decide (id' = id) then Some (json_roundtrip data)
     else loadCache id' w)
  /\ json_roundtrip (json_roundtrip data) = json_roundtrip data
  /\ logged (writeCache id data w) =
       (if readOnly w then logged w ++ [LogError NoPermissions false] else logged w)%list
  /\ loadedIconSets (writeCache id data w) = loadedIconSets w.
Proof.
  destruct (writeCache_fields id data w) as (Hl & _ & _ & _ & Hc).
  split_and!; [| |apply json_roundtrip_idempotent
               |by destruct (readOnly w); destruct Hc|done].
  - rewrite !stored_file_fs_readFile, fs_readFile_writeCache.
    destruct (readOnly w); [done|]. by case_bool_decide.
  - unfold loadCache. rewrite fs_readFile_writeCache.
    destruct (readOnly w); [done|]. by case_bool_decide.
Qed.

(** An icon set with a width of [-0] and a height of [NaN] is read back
    with a width of [0] and no height. *)
Example json_numbers_read_back :
  let odd := mkJSON "odd" ∅ ∅ None None (Some (-0)%float) (Some nan) in
  loadCache "odd" (writeCache "odd" odd emptyWorld)
  = Some (mkJSON "odd" ∅ ∅ None None (Some 0%float) None).
Proof. vm_compute. reflexivity. Qed.

(** ** Loading, reloading and restarting *)

(** What a successful run of the factory leaves behind. *)
Lemma loadIconSet_success (env : Env) (id : string) (w w1 : World) (data : IconifyJSON) :
  loadIconSet env id w = (Fulfilled (Some data), w1) ->
  globalState w1 = globalState (migrateCache w)
  /\ readOnly w1 = readOnly w
  /\ (loadedIconSets w1 !! id = Some data
      \/ (loadedIconSets w1 !! id = None /\ List.find (fun c => String.eqb (prefix c) id) (customCollections env) = Some data))
  /\ (loadedIconSets (migrateCache w) !! id = None -> List.find (fun c => String.eqb (prefix c) id) (customCollections env) = None ->
      readOnly w = false ->
      stored_file id w1 =
        Some (IconSetFile
                (if stored_file id (migrateCache w) is Some (IconSetFile _)
                 then data else json_roundtrip data))).
Proof.
  pose proof (migrateCache_readOnly w) as Hro.
  unfold loadIconSet. cbv zeta.
  destruct (loadedIconSets (migrateCache w) !! id) as [d|] eqn:Hmem.
  { intros [= -> <-]. split_and!; [done|done|by left|done]. }
  destruct (List.find (fun c => String.eqb (prefix c) id) (customCollections env)) as [c|] eqn:Hcustom.
  { intros [= -> <-]. split_and!; [done|done|by right|done]. }
  rewrite loadCache_stored_file.
  destruct (stored_file id (migrateCache w)) as [[cached|]|] eqn:Hdisk.
  { intros [= -> <-]. split_and!; [done|done| |].
    - left. simpl. apply lookup_insert_eq.
    - intros _ _ _. exact Hdisk. }
  all: destruct (fetch env _) as [fetched|]; [|done].
  all: intros [= -> <-].
  all: pose proof (writeCache_fields id data
         (with_loadedIconSets
            (<[id := data]> (loadedIconSets (migrateCache w)))
            (Log (InfoDownloaded id)
               (Log (InfoDownloading id (cdnEntry env ++ "/" ++ id ++ ".json"))
                  (migrateCache w))))) as (Hl & _ & Hg & Hr & _).
  all: pose proof (fs_readFile_writeCache id id data
         (with_loadedIconSets
            (<[id := data]> (loadedIconSets (migrateCache w)))
            (Log (InfoDownloaded id)
               (Log (InfoDownloading id (cdnEntry env ++ "/" ++ id ++ ".json"))
                  (migrateCache w))))) as Hc.
  all: simpl in *; split_and!;
    [by rewrite Hg|by rewrite Hr|left; rewrite Hl; apply lookup_insert_eq|].
  all: intros _ _ Hw; rewrite stored_file_fs_readFile, Hc, Hro, Hw;
    by rewrite bool_decide_eq_true_2.
Qed.

(** X5. A successful load is stable.  When a call of [LoadIconSet] that ran
    the factory returned an icon set, forgetting its task with [deleteTask]
    and loading again returns the same icon set and leaves the state exactly
    as the first call left it: nothing is migrated, read from the network,
    written or logged again. *)
Theorem LoadIconSet_reload_stable (env : Env) (id : string) (s s1 : State)
    (data : IconifyJSON) :
  _tasks s !! id = None ->
  LoadIconSet env id s = (Fulfilled (Some data), s1) ->
  LoadIconSet env id (snd (deleteTask id s1)) = (Fulfilled (Some data), s1).
Proof.
  intros Htask. unfold LoadIconSet.
  rewrite (UniqPromise_fresh _ _ _ Htask).
  destruct (loadIconSet env id (rest s)) as [r w1] eqn:Hload. simpl.
  intros [= -> <-].
  rewrite UniqPromise_fresh by (simpl; apply lookup_delete_eq). simpl.
  destruct (loadIconSet_success env id (rest s) w1 data Hload) as (Hg & _ & Hmem & _).
  assert (Hm : migrateCache w1 = w1).
  { apply migrateCache_nothing_to_do. intros k. rewrite Hg.
    apply migrateCache_no_legacy_left. }
  assert (Hagain : loadIconSet env id w1 = (Fulfilled (Some data), w1)).
  { unfold loadIconSet. cbv zeta. rewrite Hm.
    destruct Hmem as [->|[-> ->]]; done. }
  rewrite Hagain. simpl. by rewrite insert_delete_eq, insert_insert_eq.
Qed.

Lemma LoadIconSet_reload_stable_witness :
  let s1 := snd (LoadIconSet demoEnv "net" freshState) in
  LoadIconSet demoEnv "net" (snd (deleteTask "net" s1)) = (Fulfilled (Some netSet), s1).
Proof.
  cbv zeta.
  apply (LoadIconSet_reload_stable demoEnv "net" freshState _ netSet eq_refl).
  vm_compute. reflexivity.
Defined.

(** X6. An icon set that came from the cache folder or from the network is
    found again after a restart without the network: on a storage that
    accepts writes, a new process (empty [_tasks], [loadedIconSets] and
    [dataURLCache], same storage) that has no custom collection for [id]
    loads the icon set from its file, whatever the network answers, and logs
    that it was loaded from disk ([id] is not a name that every object
    inherits, and [loadedIconSets] was a plain dictionary in the first
    process).  What it loads is the same icon set when
    the first process had it from the file, and the icon set as its JSON
    text reads when the first process had it from the network. *)
Theorem LoadIconSet_survives_restart (env env' : Env) (id : string) (s s1 : State)
    (data : IconifyJSON) :
  inherited id = false ->
  _tasks s !! id = None ->
  LoadIconSet env id s = (Fulfilled (Some data), s1) ->
  loadedIconSets (migrateCache (rest s)) !! "__proto__" = None ->
  loadedIconSets (migrateCache (rest s)) !! id = None ->
  List.find (fun c => String.eqb (prefix c) id) (customCollections env) = None ->
  readOnly (rest s) = false ->
  List.find (fun c => String.eqb (prefix c) id) (customCollections env') = None ->
  let again :=
    if stored_file id (migrateCache (rest s)) is Some (IconSetFile _)
    then data else json_roundtrip data in
  stored_file id (rest s1) = Some (IconSetFile again)
  /\ fst (LoadIconSet env' id (restart (rest s1))) = Fulfilled (Some again)
  /\ logged (rest (snd (LoadIconSet env' id (restart (rest s1)))))
     = (logged (rest s1) ++ [InfoLoadedFromDisk id])%list
  /\ loadedIconSets (rest (snd (LoadIconSet env' id (restart (rest s1)))))
     = <[id := again]> ∅.
Proof.
  intros _ Htask Hfirst _ Hmem Hcustom Hro Hcustom'. cbv zeta.
  revert Hfirst. unfold LoadIconSet.
  rewrite (UniqPromise_fresh _ _ _ Htask).
  destruct (loadIconSet env id (rest s)) as [r w1] eqn:Hload. simpl.
  intros [= -> <-]. simpl.
  destruct (loadIconSet_success env id (rest s) w1 data Hload) as (Hg & _ & _ & Hdisk).
  specialize (Hdisk Hmem Hcustom Hro). split; [exact Hdisk|].
  rewrite UniqPromise_fresh by apply lookup_empty. simpl.
  assert (Hm : migrateCache (mkWorld ∅ ∅ (globalState w1) (cacheDir w1) (readOnly w1) (logged w1))
               = mkWorld ∅ ∅ (globalState w1) (cacheDir w1) (readOnly w1) (logged w1)).
  { apply migrateCache_nothing_to_do. intros k. simpl. rewrite Hg.
    apply migrateCache_no_legacy_left. }
  unfold loadIconSet. cbv zeta. rewrite Hm. simpl. rewrite lookup_empty, Hcustom'.
  rewrite loadCache_stored_file.
  assert (Hsame : stored_file id
            (mkWorld ∅ ∅ (globalState w1) (cacheDir w1) (readOnly w1) (logged w1))
          = stored_file id w1) by done.
  rewrite Hsame, Hdisk. done.
Qed.

(** [net] is downloaded by one process and found on disk by the next, which
    has no network; [demo], which the first process of [diskState] had
    from its file, is found there again. *)
Lemma LoadIconSet_survives_restart_witness :
  let offline := mkEnv [] "https://cdn.example" false ∅ "#fff" split_colon
                   (fun _ => None) (fun s => s)
                   (fun body _ h => mkSVG [("height", h)] body) (fun _ => "32") in
  let s1 := snd (LoadIconSet demoEnv "net" freshState) in
  let s2 := snd (LoadIconSet bareEnv "demo" diskState) in
  fst (LoadIconSet offline "net" (restart (rest s1))) = Fulfilled (Some netSet)
  /\ fst (LoadIconSet offline "demo" (restart (rest s2))) = Fulfilled (Some storedSet).
Proof.
  cbv zeta.
  assert (Hfirst : LoadIconSet demoEnv "net" freshState
                   = (Fulfilled (Some netSet), snd (LoadIconSet demoEnv "net" freshState)))
    by (vm_compute; reflexivity).
  assert (Hdisk : LoadIconSet bareEnv "demo" diskState
                   = (Fulfilled (Some storedSet), snd (LoadIconSet bareEnv "demo" diskState)))
    by (vm_compute; reflexivity).
  split.
  - exact (proj1 (proj2 (LoadIconSet_survives_restart demoEnv
      (mkEnv [] "https://cdn.example" false ∅ "#fff" split_colon
         (fun _ => None) (fun s => s)
         (fun body _ h => mkSVG [("height", h)] body) (fun _ => "32"))
      "net" freshState _ netSet eq_refl eq_refl Hfirst eq_refl eq_refl eq_refl eq_refl
      eq_refl))).
  - exact (proj1 (proj2 (LoadIconSet_survives_restart bareEnv
      (mkEnv [] "https://cdn.example" false ∅ "#fff" split_colon
         (fun _ => None) (fun s => s)
         (fun body _ h => mkSVG [("height", h)] body) (fun _ => "32"))
      "demo" diskState _ storedSet eq_refl eq_refl Hdisk eq_refl eq_refl eq_refl eq_refl
      eq_refl))).
Defined.

(** X7. After a [clearCache] that went through (there was no cache folder,
    or the storage let it be deleted), nothing stale is served: the next
    [LoadIconSet], for a key that is not a name every object inherits, takes
    the icon set from the custom collections or, failing that, asks the
    network, and is fulfilled with exactly what the network answers
    ([undefined] when the request fails). *)
Theorem clearCache_then_load_is_fresh (env : Env) (id : string) (s : State) :
  inherited id = false ->
  cacheDir (rest s) = None \/ readOnly (rest s) = false ->
  fst (clearCache s) = Fulfilled tt
  /\ fst (LoadIconSet env id (snd (clearCache s))) =
     match List.find (fun c => String.eqb (prefix c) id) (customCollections env) with
     | Some c => Fulfilled (Some c)
     | None => Fulfilled (fetch env (cdnEntry env ++ "/" ++ id ++ ".json"))
     end.
Proof.
  intros _ Hok.
  destruct (clearCache_clears s Hok)
    as (s' & -> & Htasks & Hmem & _ & Hnodir & Hglobal).
  simpl. split; [done|]. unfold LoadIconSet.
  rewrite UniqPromise_fresh by (by rewrite Htasks). simpl.
  assert (Hm : migrateCache (rest s') = rest s').
  { apply migrateCache_nothing_to_do. intros k. rewrite Hglobal.
    destruct (String.prefix "icons-" k); [by intros [? ?]|done]. }
  unfold loadIconSet. cbv zeta. rewrite Hm, Hmem, lookup_empty.
  destruct (List.find (fun c => String.eqb (prefix c) id) (customCollections env)); [done|].
  unfold loadCache, fs_readFile. rewrite Hnodir.
  by destruct (fetch env _).
Qed.

Lemma clearCache_then_load_is_fresh_witness :
  let s1 := snd (LoadIconSet demoEnv "net" freshState) in
  let offline := mkEnv [] "https://cdn.example" false ∅ "#fff" split_colon
                   (fun _ => None) (fun s => s)
                   (fun body _ h => mkSVG [("height", h)] body) (fun _ => "32") in
  fst (LoadIconSet demoEnv "net" s1) = Fulfilled (Some netSet)
  /\ fst (LoadIconSet offline "net" (snd (clearCache s1))) = Fulfilled None.
Proof.
  cbv zeta. split; [vm_compute; reflexivity|].
  exact (proj2 (clearCache_then_load_is_fresh
    (mkEnv [] "https://cdn.example" false ∅ "#fff" split_colon
       (fun _ => None) (fun s => s)
       (fun body _ h => mkSVG [("height", h)] body) (fun _ => "32"))
    "net" (snd (LoadIconSet demoEnv "net" freshState))
    eq_refl (or_intror eq_refl))).
Defined.

(** X20. When the cache folder exists and the storage accepts the deletion,
    [clearCache] is fulfilled and leaves nothing behind: [_tasks], the icon
    sets in memory and the data-URL cache are empty, the cache folder is
    gone, the legacy store has lost exactly its [icons-] entries, and the
    log ends with the notice that the cache was cleared. *)
Theorem clearCache_when_folder_exists (s : State) (files : gmap string FileContent) :
  cacheDir (rest s) = Some files ->
  readOnly (rest s) = false ->
  fst (clearCache s) = Fulfilled tt
  /\ _tasks (snd (clearCache s)) = ∅
  /\ loadedIconSets (rest (snd (clearCache s))) = ∅
  /\ dataURLCache (rest (snd (clearCache s))) = ∅
  /\ cacheDir (rest (snd (clearCache s))) = None
  /\ (forall k, globalState (rest (snd (clearCache s))) !! k =
        if String.prefix "icons-" k then None else globalState (rest s) !! k)
  /\ logged (rest (snd (clearCache s))) = (logged (rest s) ++ [InfoCleared])%list.
Proof.
  intros Hdir Hro.
  destruct (clearCache_clears s (or_intror Hro))
    as (s' & Hs' & Htasks & Hmem & Hurls & Hnodir & Hglobal).
  rewrite Hs'. simpl. split_and!; try done.
  revert Hs'. unfold clearCache, fs_delete_cacheDir. cbv zeta. simpl.
  rewrite Hdir, Hro. intros [= <-]. simpl.
  by rewrite (proj2 (proj2 (proj2 (proj2 (clearCache_loop_others _ _))))).
Qed.

Lemma clearCache_when_folder_exists_witness :
  let s1 := snd (LoadIconSet demoEnv "net" freshState) in
  loadedIconSets (rest s1) = <["net" := netSet]> ∅
  /\ fst (clearCache s1) = Fulfilled tt
  /\ loadedIconSets (rest (snd (clearCache s1))) = ∅.
Proof.
  cbv zeta. split; [vm_compute; reflexivity|].
  destruct (clearCache_when_folder_exists (snd (LoadIconSet demoEnv "net" freshState))
              (<["net" := IconSetFile netSet]> ∅) eq_refl eq_refl)
    as (Hok & _ & Hmem & _).
  by split.
Defined.

(** ** More on normalization and alias resolution *)

Lemma normalizeIcon_fields (icon : IconifyIcon) (data : IconifyJSON) :
  body (normalizeIcon icon data) = body icon
  /\ left (normalizeIcon icon data)
     = Some (nullish_or (nullish (left icon) (set_left data)) 0%float)
  /\ top (normalizeIcon icon data)
     = Some (nullish_or (nullish (top icon) (set_top data)) 0%float)
  /\ hFlip (normalizeIcon icon data) = hFlip icon
  /\ vFlip (normalizeIcon icon data) = vFlip icon.
Proof.
  destruct icon as [b [l t w h [r|] hf vf]]; unfold normalizeIcon; simpl;
    [destruct (r =? 0)%Z|]; done.
Qed.

Lemma normalizeIcon_normalized (icon : IconifyIcon) (data : IconifyJSON) :
  normalized (normalizeIcon icon data).
Proof.
  destruct (normalizeIcon_fields icon data) as (_ & Hl & Ht & _).
  destruct (normalizeIcon_size icon data) as (Hw & Hh).
  unfold normalized. rewrite Hl, Ht, Hw, Hh, normalizeIcon_rotate.
  split_and!; try by eexists.
  intros r. destruct (rotate icon) as [r0|]; [|done]. intros [= <-].
  destruct (r0 =? 0)%Z eqn:Hz.
  - apply Z.eqb_eq in Hz. lia.
  - pose proof (Z.rem_bound_abs r0 4 ltac:(lia)). lia.
Qed.

(** X8. [normalizeIcon] is idempotent: normalizing an icon that is already
    normalized against the same icon set changes nothing. *)
Theorem normalizeIcon_idempotent (icon : IconifyIcon) (data : IconifyJSON) :
  normalizeIcon (normalizeIcon icon data) data = normalizeIcon icon data.
Proof.
  destruct icon as [b [l t w h [r|] hf vf]]; unfold normalizeIcon; simpl.
  - destruct (r =? 0)%Z eqn:Hz; simpl.
    + by rewrite Hz.
    + destruct (Z.rem r 4 =? 0)%Z; simpl; [done|]. by rewrite rem4_idempotent.
  - done.
Qed.

Section ResolutionFacts.
Variable data : IconifyJSON.

Lemma resolve_success_normalized fuel : forall key visited icon,
  fst (resolve data fuel key visited) = Some (Some icon) ->
  normalized icon /\ exists k i, icons data !! k = Some i /\ body icon = body i.
Proof.
  induction fuel as [|fuel IH]; intros key visited icon; [done|].
  rewrite resolve_unfold. case_bool_decide; [done|].
  destruct (icons data !! key) as [i|] eqn:Hi.
  { simpl. intros [= <-]. split; [apply normalizeIcon_normalized|].
    exists key, i. split; [done|]. apply normalizeIcon_fields. }
  destruct (aliases data !! key) as [alias|]; [|done].
  specialize (IH (parent alias) (visited ++ [key])%list).
  destruct (resolve data fuel (parent alias) (visited ++ [key])%list) as [[[p|]|] v];
    simpl in *; try done.
  intros [= <-]. split; [apply normalizeIcon_normalized|].
  destruct (IH p eq_refl) as (_ & k & i & Hk & Hb). exists k, i. split; [done|].
  rewrite (proj1 (normalizeIcon_fields _ _)). rewrite <- Hb.
  unfold mergeAlias. cbv zeta.
  repeat match goal with |- context [if ?c then _ else _] => destruct c end;
    repeat match goal with |- context [match ?c with Some _ => _ | None => _ end] =>
      destruct c end; reflexivity.
Qed.

(** More fuel does not change an answer. *)
Lemma resolve_fuel_mono fuel : forall key visited r fuel',
  fst (resolve data fuel key visited) = Some r -> (fuel <= fuel')%nat ->
  resolve data fuel' key visited = resolve data fuel key visited.
Proof.
  induction fuel as [|fuel IH]; intros key visited r fuel' Hr Hle; [done|].
  destruct fuel' as [|fuel']; [lia|]. revert Hr. rewrite !resolve_unfold.
  case_bool_decide; [done|].
  destruct (icons data !! key); [done|].
  destruct (aliases data !! key) as [alias|]; [|done].
  specialize (IH (parent alias) (visited ++ [key])%list).
  destruct (resolve data fuel (parent alias) (visited ++ [key])%list)
    as [[r0|] v] eqn:Hin; [|done].
  intros _. by rewrite (IH r0 fuel' eq_refl ltac:(lia)).
Qed.

(** What was visited stays on the path. *)
Lemma resolve_path_extends fuel : forall key visited x,
  x ∈ visited -> x ∈ snd (resolve data fuel key visited).
Proof.
  induction fuel as [|fuel IH]; intros key visited x Hx; [done|].
  rewrite resolve_unfold. case_bool_decide; [done|].
  assert (x ∈ (visited ++ [key])%list) by (apply elem_of_app; by left).
  destruct (icons data !! key); [done|].
  destruct (aliases data !! key) as [alias|]; [|done].
  specialize (IH (parent alias) (visited ++ [key])%list x ltac:(done)).
  by destruct (resolve data fuel (parent alias) (visited ++ [key])%list) as [[[p|]|] v].
Qed.

(** A resolution that succeeds also succeeds from fewer visited names. *)
Lemma resolve_success_fewer fuel : forall key visited visited' p,
  fst (resolve data fuel key visited) = Some (Some p) ->
  (forall x, x ∈ visited' -> x ∈ visited) ->
  fst (resolve data fuel key visited') = Some (Some p).
Proof.
  induction fuel as [|fuel IH]; intros key visited visited' p; [done|].
  rewrite !resolve_unfold. case_bool_decide as Hin; [done|]. intros Hp Hsub.
  rewrite bool_decide_eq_false_2 by (intros ?; by apply Hin, Hsub).
  destruct (icons data !! key); [done|].
  destruct (aliases data !! key) as [alias|]; [|done].
  specialize (IH (parent alias) (visited ++ [key])%list (visited' ++ [key])%list).
  destruct (resolve data fuel (parent alias) (visited ++ [key])%list)
    as [[[p0|]|] v]; simpl in *; try done.
  rewrite (surjective_pairing (resolve data fuel (parent alias) (visited' ++ [key])%list)).
  rewrite (IH p0 eq_refl); [done|].
  intros x [?|?]%elem_of_app; apply elem_of_app; [left; by apply Hsub|by right].
Qed.

(** A resolution that succeeds also succeeds when names that are not on its
    path count as visited. *)
Lemma resolve_success_more fuel : forall key visited visited' p,
  fst (resolve data fuel key visited) = Some (Some p) ->
  (forall x, x ∈ visited' ->
     x ∈ visited \/ x ∉ snd (resolve data fuel key visited)) ->
  fst (resolve data fuel key visited') = Some (Some p).
Proof.
  induction fuel as [|fuel IH]; intros key visited visited' p; [done|].
  pose proof (resolve_path_extends fuel) as Hext.
  rewrite !resolve_unfold. case_bool_decide as Hin; [done|].
  destruct (icons data !! key) eqn:Hicon.
  { simpl. intros Hp Hsub. rewrite bool_decide_eq_false_2; [done|].
    intros [?|Hout]%Hsub; [done|]. apply Hout, elem_of_app. right. by left. }
  destruct (aliases data !! key) as [alias|]; [|done].
  specialize (IH (parent alias) (visited ++ [key])%list (visited' ++ [key])%list).
  specialize (Hext (parent alias) (visited ++ [key])%list).
  destruct (resolve data fuel (parent alias) (visited ++ [key])%list)
    as [[[p0|]|] v]; simpl in *; try done.
  intros Hp Hsub. rewrite bool_decide_eq_false_2.
  2:{ intros [?|Hout]%Hsub; [done|]. apply Hout, Hext, elem_of_app. right. by left. }
  rewrite (surjective_pairing (resolve data fuel (parent alias) (visited' ++ [key])%list)).
  rewrite (IH p0 eq_refl); [done|].
  intros x [Hx|Hx]%elem_of_app.
  - destruct (Hsub x Hx) as [?|?]; [left; apply elem_of_app; by left|by right].
  - left. apply elem_of_app. by right.
Qed.

(** On the path of a resolution that succeeds, the parent of an alias was
    not visited before, and is not the name the resolution started from. *)
Lemma resolve_success_parents fuel : forall key visited p,
  fst (resolve data fuel key visited) = Some (Some p) ->
  forall x a, x ∈ snd (resolve data fuel key visited) -> x ∉ visited ->
  icons data !! x = None -> aliases data !! x = Some a ->
  parent a <> key /\ parent a ∉ visited.
Proof.
  induction fuel as [|fuel IH]; intros key visited p; [done|].
  rewrite !resolve_unfold. case_bool_decide as Hin; [done|].
  destruct (icons data !! key) eqn:Hicon.
  { simpl. intros _ x a [?|Hx]%elem_of_app Hnew Hxi Hxa; [done|].
    apply list_elem_of_singleton in Hx as ->. congruence. }
  destruct (aliases data !! key) as [alias|] eqn:Halias; [|done].
  specialize (IH (parent alias) (visited ++ [key])%list).
  assert (Hguard : forall p0,
    fst (resolve data fuel (parent alias) (visited ++ [key])%list) = Some (Some p0) ->
    parent alias ∉ (visited ++ [key])%list).
  { intros p0 Hp0 Hv. destruct fuel as [|fuel']; [done|].
    by rewrite resolve_visited in Hp0. }
  destruct (resolve data fuel (parent alias) (visited ++ [key])%list)
    as [[[p0|]|] v]; simpl in *; try done.
  intros _ x a Hx Hnew Hxi Hxa.
  specialize (Hguard p0 eq_refl). rewrite elem_of_app, list_elem_of_singleton in Hguard.
  destruct (decide (x = key)) as [->|Hne].
  - assert (a = alias) as -> by congruence. split; intros ?; apply Hguard; auto.
  - destruct (IH p0 eq_refl x a Hx) as [_ Hout]; try done.
    + rewrite elem_of_app, list_elem_of_singleton. intros [?|?]; done.
    + rewrite elem_of_app, list_elem_of_singleton in Hout.
      split; intros ?; apply Hout; auto.
Qed.
End ResolutionFacts.

Lemma mergeAlias_geometry (parent : IconifyIcon) (alias : IconifyAlias) :
  body (mergeAlias parent alias) = body parent
  /\ left (mergeAlias parent alias) = nullish (left alias) (left parent)
  /\ top (mergeAlias parent alias) = nullish (top alias) (top parent)
  /\ width (mergeAlias parent alias) = nullish (width alias) (width parent)
  /\ height (mergeAlias parent alias) = nullish (height alias) (height parent).
Proof.
  unfold mergeAlias. cbv zeta.
  destruct (strict_neq (vFlip parent) (vFlip alias)),
    (strict_neq (hFlip parent) (hFlip alias)),
    (negb (Z.rem (nullish_or (rotate parent) 0 + nullish_or (rotate alias) 0) 4 =? 0)%Z),
    (left alias), (top alias), (width alias), (height alias); done.
Qed.

Lemma resolveIconData_success (data : IconifyJSON) (name : string)
    (icon : IconifyIcon) :
  resolveIconData data name = Some icon ->
  normalized icon /\ exists k i, icons data !! k = Some i /\ body icon = body i.
Proof.
  intros Hres. destruct (resolve_returns data name) as (r & Hr & Heq).
  rewrite Hres in Heq. subst r.
  by apply (resolve_success_normalized data _ _ _ _ Hr).
Qed.

(** X9. Every icon that [resolveIconData] returns is normalized: left, top,
    width and height are present and the rotation, if present, lies strictly
    between -4 and 4. *)
Theorem resolveIconData_normalized (data : IconifyJSON) (name : string)
    (icon : IconifyIcon) :
  resolveIconData data name = Some icon -> normalized icon.
Proof.
  intros Hres. destruct (resolve_returns data name) as (r & Hr & Heq).
  rewrite Hres in Heq. subst r.
  by apply (resolve_success_normalized data _ _ _ _ Hr).
Qed.

Lemma resolveIconData_normalized_witness :
  exists icon, resolveIconData demoSet "b-turn" = Some icon /\ normalized icon.
Proof.
  eexists. split; [vm_compute; reflexivity|].
  exact (resolveIconData_normalized demoSet "b-turn" _ eq_refl).
Defined.

(** The parents of the aliases can be checked one by one. *)
Lemma parents_not_inherited (data : IconifyJSON) :
  forallb (fun ka => negb (inherited (parent (snd ka)))) (map_to_list (aliases data)) = true ->
  forall k a, aliases data !! k = Some a -> inherited (parent a) = false.
Proof.
  intros Hall k a Hk. rewrite forallb_forall in Hall.
  specialize (Hall (k, a)). simpl in Hall. apply negb_true_iff, Hall.
  apply list_elem_of_In. by apply elem_of_map_to_list.
Qed.

(** X10. An alias never brings a body of its own: when neither the name
    asked for nor the parent of any alias is a name that every object
    inherits, the body of every icon that [resolveIconData] returns is the
    body of an icon of the icon set. *)
Theorem resolveIconData_body_of_an_icon (data : IconifyJSON) (name : string)
    (icon : IconifyIcon) :
  inherited name = false ->
  (forall k a, aliases data !! k = Some a -> inherited (parent a) = false) ->
  resolveIconData data name = Some icon ->
  exists k i, icons data !! k = Some i /\ body icon = body i.
Proof.
  intros _ _ Hres. destruct (resolve_returns data name) as (r & Hr & Heq).
  rewrite Hres in Heq. subst r.
  by apply (resolve_success_normalized data _ _ _ _ Hr).
Qed.

Lemma resolveIconData_body_of_an_icon_witness :
  exists icon k i, resolveIconData demoSet "b-turn" = Some icon
                   /\ icons demoSet !! k = Some i /\ body icon = body i.
Proof.
  destruct (resolveIconData_body_of_an_icon demoSet "b-turn"
              (normalizeIcon (mergeAlias (normalizeIcon (mkIcon "<rect/>" plain) demoSet)
                 (mkAlias "b" (mkOptional None None None None (Some 2) None None))) demoSet))
    as (k & i & Hk & Hb);
    [reflexivity
    |apply parents_not_inherited; vm_compute; reflexivity
    |vm_compute; reflexivity|].
  eexists _, k, i. split; [vm_compute; reflexivity|]. by split.
Defined.

(** X11. Resolution is compositional, when neither the name asked for nor
    the parent of any alias is a name that every object inherits.  A name
    that is an alias (and not an icon) resolves to its alias merged onto the
    resolution of its parent and normalized again, and does not resolve when
    its parent does not: the names already visited never change the outcome
    of a chain that reaches an icon.  What the alias states wins and the rest is inherited: the
    resolved alias has the body of its resolved parent, its left, top, width
    and height are those of the alias where it states them and those of the
    resolved parent otherwise, and its flips are either missing or [true]. *)
Theorem resolveIconData_alias (data : IconifyJSON) (name : string)
    (alias : IconifyAlias) :
  inherited name = false ->
  (forall k a, aliases data !! k = Some a -> inherited (parent a) = false) ->
  icons data !! name = None ->
  aliases data !! name = Some alias ->
  resolveIconData data name =
    match resolveIconData data (parent alias) with
    | Some p => Some (normalizeIcon (mergeAlias p alias) data)
    | None => None
    end
  /\ forall p, resolveIconData data (parent alias) = Some p ->
      exists icon,
        resolveIconData data name = Some icon
        /\ body icon = body p
        /\ left icon = nullish (left alias) (left p)
        /\ top icon = nullish (top alias) (top p)
        /\ width icon = nullish (width alias) (width p)
        /\ height icon = nullish (height alias) (height p)
        /\ (hFlip icon = None \/ hFlip icon = Some true)
        /\ (vFlip icon = None \/ vFlip icon = Some true).
Proof.
  intros _ _ Hicon Halias.
  assert (Heq : resolveIconData data name =
    match resolveIconData data (parent alias) with
    | Some p => Some (normalizeIcon (mergeAlias p alias) data)
    | None => None
    end).
  { destruct (resolve_returns data (parent alias)) as (rp & Hrp & ->).
    assert (Hinner : exists r,
      fst (resolve data (size (aliases data)) (parent alias) [name]) = Some r).
    { apply resolve_fuel_enough.
      pose proof (pending_shrinks data name [] alias ltac:(apply not_elem_of_nil) Halias).
      pose proof (pending_nil_size data). unfold resolve_fuel in *. simpl in *. lia. }
    destruct Hinner as [r Hr].
    pose proof (resolve_fuel_mono data _ _ _ _ (resolve_fuel data) Hr
                  ltac:(unfold resolve_fuel; lia)) as Hmono.
    assert (Hsame : r = rp).
    { destruct rp as [p|].
      - assert (Hout : name ∉ snd (resolve data (resolve_fuel data) (parent alias) [])).
        { intros Hin.
          destruct (resolve_success_parents data _ _ _ _ Hrp name alias Hin
                      ltac:(apply not_elem_of_nil) Hicon Halias) as [Hne _]. done. }
        pose proof (resolve_success_more data _ _ [] [name] p Hrp) as Hmore.
        rewrite Hmono, Hr in Hmore. apply Some_inj, Hmore.
        intros x ->%list_elem_of_singleton. by right.
      - destruct r as [p|]; [|done].
        pose proof (resolve_success_fewer data (resolve_fuel data) (parent alias)
                      [name] [] p) as Hfewer.
        rewrite Hmono, Hr, Hrp in Hfewer.
        specialize (Hfewer eq_refl ltac:(by intros x ?%not_elem_of_nil)). done. }
    subst r. unfold resolveIconData, resolve_fuel.
    rewrite resolve_unfold, bool_decide_eq_false_2 by apply not_elem_of_nil.
    rewrite Hicon, Halias. simpl.
    destruct (resolve data (size (aliases data)) (parent alias) [name]) as [r0 v].
    simpl in Hr. subst r0. by destruct rp. }
  split; [exact Heq|]. intros p Hp. rewrite Heq, Hp.
  eexists. split; [reflexivity|].
  destruct (resolveIconData_success data _ p Hp)
    as (([l Hl] & [t Ht] & [w Hw] & [h Hh] & _) & _).
  destruct (normalizeIcon_fields (mergeAlias p alias) data) as (-> & -> & -> & -> & ->).
  destruct (normalizeIcon_size (mergeAlias p alias) data) as (-> & ->).
  destruct (mergeAlias_geometry p alias) as (-> & -> & -> & -> & ->).
  rewrite mergeAlias_hFlip, mergeAlias_vFlip, Hl, Ht, Hw, Hh.
  split_and!; try done.
  - by destruct (left alias).
  - by destruct (top alias).
  - by destruct (width alias).
  - by destruct (height alias).
  - destruct (strict_neq _ _); auto.
  - destruct (strict_neq _ _); auto.
Qed.

Lemma resolveIconData_alias_witness :
  exists icon,
    resolveIconData demoSet "b-turn" = Some icon
    /\ body icon = "<rect/>"
    /\ width icon = Some 16%float
    /\ rotate icon = Some 2.
Proof.
  destruct (resolveIconData_alias demoSet "b-turn"
              (mkAlias "b" (mkOptional None None None None (Some 2) None None))
              eq_refl
              (parents_not_inherited demoSet ltac:(vm_compute; reflexivity))
              eq_refl eq_refl) as [Heq Hinherit].
  destruct (Hinherit (normalizeIcon (mkIcon "<rect/>" plain) demoSet))
    as (icon & Hres & Hb & _ & _ & Hw & _); [vm_compute; reflexivity|].
  exists icon. split_and!; [exact Hres|exact Hb|exact Hw|].
  rewrite Heq in Hres. vm_compute in Hres. by injection Hres as <-.
Defined.

(** ** More on [getIconInfo] *)

(** X12. A configured alias is a plain substitution of the key: asking for
    an aliased key with aliases allowed is the same, result and effects, as
    asking for the real key with aliases off, so the info carries the real
    key and not the one that was asked for. *)
Theorem getIconInfo_alias_substitution (env : Env) (key real : string) (s : State) :
  enabledAliases env !! key = Some real ->
  truthy_string real = true ->
  getIconInfo env key true s = getIconInfo env real false s
  /\ (forall info s', getIconInfo env key true s = (Fulfilled (Found info), s') ->
        info_key info = real).
Proof.
  intros Halias Htruthy.
  assert (Hkey : actualKey env key true = Some real).
  { unfold actualKey. rewrite Halias, Htruthy. simpl.
    by destruct (customAliasesOnly env). }
  assert (Hreal : actualKey env real false = Some real) by done.
  split.
  - unfold getIconInfo. by rewrite Hkey, Hreal.
  - intros info s'. unfold getIconInfo. rewrite Hkey.
    destruct (parseIcon env real) as [[collection name]|]; [|done].
    destruct (LoadIconSet env collection s) as [[[data|]|e] s1]; [|done|done].
    destruct (resolveIconData data name); [|done]. by intros [= <- _].
Qed.

Lemma getIconInfo_alias_substitution_witness :
  let aliased := mkEnv [demoSet] "https://cdn.example" true (<["home" := "demo:a"]> ∅)
                   "#fff" split_colon (fun _ => None) (fun s => s)
                   (fun body _ h => mkSVG [("height", h)] body) (fun _ => "32") in
  getIconInfo aliased "home" true freshState = getIconInfo aliased "demo:a" false freshState
  /\ fst (getIconInfo aliased "demo:a" true freshState) = Fulfilled Undefined.
Proof.
  cbv zeta. split; [|vm_compute; reflexivity].
  exact (proj1 (getIconInfo_alias_substitution
    (mkEnv [demoSet] "https://cdn.example" true (<["home" := "demo:a"]> ∅)
       "#fff" split_colon (fun _ => None) (fun s => s)
       (fun body _ h => mkSVG [("height", h)] body) (fun _ => "32"))
    "home" "demo:a" freshState eq_refl eq_refl)).
Defined.

(** X13. An info that [getIconInfo] returns is consistent: its key is the
    key that was looked up, that key parses to its collection and its id,
    and its body, geometry and transformations are those of the icon that
    [resolveIconData] found in the loaded collection; in particular its
    width and height are the resolved ones, never the later fallbacks. *)
Theorem getIconInfo_found_consistent (env : Env) (key : string) (allowAliases : bool)
    (s s' : State) (info : IconInfo) :
  getIconInfo env key allowAliases s = (Fulfilled (Found info), s') ->
  actualKey env key allowAliases = Some (info_key info)
  /\ parseIcon env (info_key info) = Some (info_collection info, info_id info)
  /\ exists data icon,
       LoadIconSet env (info_collection info) s = (Fulfilled (Some data), s')
       /\ resolveIconData data (info_id info) = Some icon
       /\ body icon = info_body info
       /\ left icon = info_left info /\ top icon = info_top info
       /\ width icon = Some (info_width info)
       /\ height icon = Some (info_height info)
       /\ rotate icon = info_rotate info
       /\ hFlip icon = info_hFlip info /\ vFlip icon = info_vFlip info.
Proof.
  unfold getIconInfo.
  destruct (actualKey env key allowAliases) as [ak|]; [|done].
  destruct (parseIcon env ak) as [[collection name]|] eqn:Hparse; [|done].
  destruct (LoadIconSet env collection s) as [[[data|]|e] s1] eqn:Hload; [|done|done].
  destruct (resolveIconData data name) as [icon|] eqn:Hres; [|done].
  intros [= <- <-]. simpl. split_and!; [done|done|].
  exists data, icon.
  destruct (resolveIconData_success data name icon Hres)
    as ((_ & _ & [w Hw] & [h Hh] & _) & _).
  rewrite Hw, Hh. simpl. split_and!; done.
Qed.

Lemma getIconInfo_found_consistent_witness :
  exists info s',
    getIconInfo demoEnv "demo:a" true freshState = (Fulfilled (Found info), s')
    /\ split_colon (info_key info) = Some (info_collection info, info_id info).
Proof.
  eexists _, _. split; [vm_compute; reflexivity|].
  exact (proj1 (proj2 (getIconInfo_found_consistent demoEnv "demo:a" true
                         freshState _ _ eq_refl))).
Defined.

(** The same call of [getIconInfo] again, on the state the first left. *)
Lemma getIconInfo_repeat (env : Env) (key : string) (allowAliases : bool)
    (s s1 : State) (r : Settled IconLookup Error) :
  getIconInfo env key allowAliases s = (r, s1) ->
  getIconInfo env key allowAliases s1 = (r, s1).
Proof.
  unfold getIconInfo.
  destruct (actualKey env key allowAliases) as [ak|]; [|by intros [= <- <-]].
  destruct (parseIcon env ak) as [[collection name]|]; [|by intros [= <- <-]].
  pose proof (UniqPromise_records (loadIconSet env) collection s) as Hrec.
  unfold LoadIconSet.
  destruct (UniqPromise (loadIconSet env) collection s) as [p s2]. simpl in Hrec.
  assert (Hagain : UniqPromise (loadIconSet env) collection s2 = (p, s2))
    by (by apply UniqPromise_stored).
  destruct p as [[data|]|e].
  - destruct (resolveIconData data name) eqn:Hres;
      intros [= <- <-]; by rewrite Hagain, Hres.
  - intros [= <- <-]. by rewrite Hagain.
  - intros [= <- <-]. by rewrite Hagain.
Qed.

(** X14. [getIconInfo] settles: whatever a call returned (an info, [null],
    [undefined] or a rejection), the same call on the state it left returns
    the same and changes nothing more: no second download, write or log.
    The only effect of a call is that of loading the collection of its key:
    the data-URL cache is never touched. *)
Theorem getIconInfo_stable (env : Env) (key : string) (allowAliases : bool)
    (s s1 : State) (r : Settled IconLookup Error) :
  getIconInfo env key allowAliases s = (r, s1) ->
  getIconInfo env key allowAliases s1 = (r, s1)
  /\ dataURLCache (rest s1) = dataURLCache (rest s)
  /\ (s1 = s
      \/ exists ak collection name,
           actualKey env key allowAliases = Some ak
           /\ parseIcon env ak = Some (collection, name)
           /\ s1 = snd (LoadIconSet env collection s)).
Proof.
  intros Hcall. split_and!.
  - by apply (getIconInfo_repeat env key allowAliases s).
  - pose proof (getIconInfo_dataURLCache env key allowAliases s) as Hsame.
    by rewrite Hcall in Hsame.
  - revert Hcall. unfold getIconInfo.
    destruct (actualKey env key allowAliases) as [ak|]; [|intros [= _ <-]; by left].
    destruct (parseIcon env ak) as [[collection name]|] eqn:Hparse;
      [|intros [= _ <-]; by left].
    intros Hcall. right. exists ak, collection, name.
    split; [done|]. split; [done|]. revert Hcall.
    destruct (LoadIconSet env collection s) as [[[data|]|e] s2]; simpl;
      [destruct (resolveIconData data name)| |]; cbv beta iota zeta;
      by intros [= _ <-].
Qed.

Lemma getIconInfo_stable_witness :
  let s1 := snd (getIconInfo demoEnv "net:x" true freshState) in
  snd (getIconInfo demoEnv "net:x" true s1) = s1.
Proof.
  cbv zeta.
  by rewrite (proj1 (getIconInfo_stable demoEnv "net:x" true freshState
                (snd (getIconInfo demoEnv "net:x" true freshState))
                (fst (getIconInfo demoEnv "net:x" true freshState))
                (surjective_pairing _))).
Defined.

(** ** More on [getDataURL] and [pathToSvg] *)

Lemma toDataUrl_truthy (env : Env) (str : string) :
  truthy_string (toDataUrl env str) = true.
Proof. reflexivity. Qed.

Lemma toDataUrl_scheme (env : Env) (str : string) :
  String.prefix data_url_scheme (toDataUrl env str) = true.
Proof. apply prefix_append. Qed.

(** The equation of a returned pair, taken apart and substituted. *)
Ltac inj_pair :=
  let H := fresh in cbv beta iota; intros H; injection H as <- <-.

(** A call of [getDataURL] either finds a non-empty URL under its key and
    returns it, or goes on to resolve and render. *)
Lemma getDataURL_hit (env : Env) (keyOrInfo : KeyOrInfo) (fontSize : option Number)
    (s : State) (url : string) :
  dataURLCache (rest s)
    !! cacheKey env fontSize (match keyOrInfo with ByKey k => k | ByInfo i => info_key i end)
    = Some url ->
  truthy_string url = true ->
  getDataURL env keyOrInfo fontSize s = (Fulfilled url, s).
Proof. intros Hlook Htruthy. unfold getDataURL. cbv zeta. by rewrite Hlook, Htruthy. Qed.

(** X15. [getDataURL] settles: whatever a call returned (a data URL, the
    empty string or a rejection), the same call on the state it left returns
    the same and changes nothing more; a data URL that was made once is
    served from the cache, without resolving or rendering again. *)
Theorem getDataURL_stable (env : Env) (keyOrInfo : KeyOrInfo)
    (fontSize : option Number) (s s1 : State) (r : Settled string Error) :
  getDataURL env keyOrInfo fontSize s = (r, s1) ->
  getDataURL env keyOrInfo fontSize s1 = (r, s1).
Proof.
  assert (Hstored : forall (s2 : State) key info,
    key = match keyOrInfo with ByKey k => k | ByInfo i => info_key i end ->
    getDataURL env keyOrInfo fontSize
      (mkDedup (_tasks s2)
         (with_dataURLCache
            (<[cacheKey env fontSize key :=
                 toDataUrl env (replaceAll "currentColor" (color env)
                   (pathToSvg env info (nullish_or fontSize 32%float)))]>
               (dataURLCache (rest s2))) (rest s2)))
    = (Fulfilled (toDataUrl env (replaceAll "currentColor" (color env)
                    (pathToSvg env info (nullish_or fontSize 32%float)))),
       mkDedup (_tasks s2)
         (with_dataURLCache
            (<[cacheKey env fontSize key :=
                 toDataUrl env (replaceAll "currentColor" (color env)
                   (pathToSvg env info (nullish_or fontSize 32%float)))]>
               (dataURLCache (rest s2))) (rest s2)))).
  { intros s2 key info ->.
    apply getDataURL_hit; [apply lookup_insert_eq|apply toDataUrl_truthy]. }
  destruct keyOrInfo as [k|info]; unfold getDataURL at 1; cbv zeta.
  - destruct (match dataURLCache (rest s) !! cacheKey env fontSize k with
              | Some url => if truthy_string url then Some url else None
              | None => None
              end) as [url|] eqn:Hhit.
    + inj_pair. apply getDataURL_hit;
        destruct (dataURLCache (rest s) !! cacheKey env fontSize k) as [u|]; try done;
        destruct (truthy_string u) eqn:Hu; try done; by injection Hhit as ->.
    + pose proof (getIconInfo_dataURLCache env k true s) as Hsame.
      destruct (getIconInfo env k true s) as [[[| |info]|e] s2] eqn:Hinfo;
        apply getIconInfo_repeat in Hinfo; simpl in Hsame; inj_pair;
        try (unfold getDataURL; cbv zeta; rewrite Hsame, Hhit, Hinfo; done).
      by apply Hstored.
  - destruct (match dataURLCache (rest s) !! cacheKey env fontSize (info_key info) with
              | Some url => if truthy_string url then Some url else None
              | None => None
              end) as [url|] eqn:Hhit.
    + inj_pair. apply getDataURL_hit;
        destruct (dataURLCache (rest s) !! cacheKey env fontSize (info_key info))
          as [u|]; try done;
        destruct (truthy_string u) eqn:Hu; try done; by injection Hhit as ->.
    + inj_pair. by apply Hstored.
Qed.

Lemma getDataURL_stable_witness :
  let s1 := snd (getDataURL demoEnv (ByKey "net:x") None freshState) in
  snd (getDataURL demoEnv (ByKey "net:x") None s1) = s1.
Proof.
  cbv zeta.
  by rewrite (getDataURL_stable demoEnv (ByKey "net:x") None freshState
                (snd (getDataURL demoEnv (ByKey "net:x") None freshState))
                (fst (getDataURL demoEnv (ByKey "net:x") None freshState))
                (surjective_pairing _)).
Defined.

(** X16. [getDataURL] only hands out data URLs: as long as the cache holds
    only strings that start with [data:image/svg+xml;base64,] (which is true
    of the empty cache), a call returns either such a string or the empty
    string, and leaves such a cache. *)
Theorem getDataURL_returns_data_url (env : Env) (keyOrInfo : KeyOrInfo)
    (fontSize : option Number) (s s1 : State) (url : string) :
  urls_are_data_urls (rest s) ->
  getDataURL env keyOrInfo fontSize s = (Fulfilled url, s1) ->
  (url = "" \/ String.prefix data_url_scheme url = true)
  /\ urls_are_data_urls (rest s1).
Proof.
  intros Hinv.
  assert (Hstore : forall (s2 : State) key info,
    dataURLCache (rest s2) = dataURLCache (rest s) ->
    urls_are_data_urls (with_dataURLCache
      (<[cacheKey env fontSize key :=
           toDataUrl env (replaceAll "currentColor" (color env)
             (pathToSvg env info (nullish_or fontSize 32%float)))]>
         (dataURLCache (rest s2))) (rest s2))).
  { intros s2 key info Hsame k u. simpl. rewrite lookup_insert, Hsame.
    case_decide; [intros [= <-]; apply toDataUrl_scheme|apply Hinv]. }
  assert (Hhits : forall key u,
    match dataURLCache (rest s) !! cacheKey env fontSize key with
    | Some url => if truthy_string url then Some url else None
    | None => None
    end = Some u -> String.prefix data_url_scheme u = true).
  { intros key u.
    destruct (dataURLCache (rest s) !! cacheKey env fontSize key) as [u0|] eqn:Hu0;
      [|done].
    destruct (truthy_string u0); [|done]. intros [= <-]. by eapply Hinv. }
  destruct keyOrInfo as [k|info]; unfold getDataURL; cbv zeta.
  - destruct (match dataURLCache (rest s) !! cacheKey env fontSize k with
              | Some url => if truthy_string url then Some url else None
              | None => None
              end) as [u|] eqn:Hhit.
    + inj_pair. split; [right; by eapply Hhits|done].
    + pose proof (getIconInfo_dataURLCache env k true s) as Hsame.
      destruct (getIconInfo env k true s) as [[[| |info]|e] s2]; simpl in Hsame;
        cbv beta iota; try done; inj_pair;
        try (split; [by left|]; unfold urls_are_data_urls; by rewrite Hsame).
      split; [right; apply toDataUrl_scheme|by apply Hstore].
  - destruct (match dataURLCache (rest s) !! cacheKey env fontSize (info_key info) with
              | Some url => if truthy_string url then Some url else None
              | None => None
              end) as [u|] eqn:Hhit.
    + inj_pair. split; [right; by eapply Hhits|done].
    + inj_pair. split; [right; apply toDataUrl_scheme|by apply Hstore].
Qed.

Lemma getDataURL_returns_data_url_witness :
  exists url,
    fst (getDataURL demoEnv (ByKey "demo:a") None freshState) = Fulfilled url
    /\ String.prefix data_url_scheme url = true.
Proof.
  assert (Hinv : urls_are_data_urls (rest freshState))
    by (intros k u; simpl; by rewrite lookup_empty).
  destruct (getDataURL demoEnv (ByKey "demo:a") None freshState) as [[url|e] s1] eqn:Hcall;
    [|vm_compute in Hcall; discriminate].
  destruct (getDataURL_returns_data_url demoEnv (ByKey "demo:a") None freshState s1 url
              Hinv Hcall) as [[->|Hp] _].
  - vm_compute in Hcall. discriminate.
  - exists url. by split.
Defined.

(** X17. Given an [IconInfo], [getDataURL] does not go through the loader:
    [_tasks], the icon sets in memory, the storage and the log are left as
    they were, the call is never rejected and never returns the empty
    string, and the URL it returns is the one stored under its key. *)
Theorem getDataURL_of_info (env : Env) (info : IconInfo) (fontSize : option Number)
    (s : State) :
  let s1 := snd (getDataURL env (ByInfo info) fontSize s) in
  _tasks s1 = _tasks s
  /\ loadedIconSets (rest s1) = loadedIconSets (rest s)
  /\ globalState (rest s1) = globalState (rest s)
  /\ cacheDir (rest s1) = cacheDir (rest s)
  /\ logged (rest s1) = logged (rest s)
  /\ exists url,
       fst (getDataURL env (ByInfo info) fontSize s) = Fulfilled url
       /\ url <> ""
       /\ dataURLCache (rest s1) !! cacheKey env fontSize (info_key info) = Some url.
Proof.
  unfold getDataURL. cbv zeta.
  destruct (dataURLCache (rest s) !! cacheKey env fontSize (info_key info))
    as [url0|] eqn:Hlook.
  - destruct (truthy_string url0) eqn:Htruthy; simpl.
    + split_and!; try done. exists url0. split_and!; [done| |done].
      intros ->. done.
    + split_and!; try done. eexists.
      split_and!; [done|apply toDataUrl_nonempty|apply lookup_insert_eq].
  - simpl. split_and!; try done. eexists.
    split_and!; [done|apply toDataUrl_nonempty|apply lookup_insert_eq].
Qed.

Lemma append_assoc (a b c : string) : (a ++ b) ++ c = a ++ (b ++ c).
Proof.
  induction a as [|x a IH]; [by rewrite !append_empty|].
  rewrite !append_cons. by rewrite IH.
Qed.

Lemma append_nil_r (a : string) : a ++ "" = a.
Proof.
  induction a as [|x a IH]; [done|]. rewrite append_cons. by rewrite IH.
Qed.

Lemma length_append (a b : string) :
  String.length (a ++ b) = (String.length a + String.length b)%nat.
Proof.
  induction a as [|x a IH]; [by rewrite append_empty|].
  rewrite append_cons. simpl. by rewrite IH.
Qed.

Lemma append_inv_tail (a b s : string) : a ++ s = b ++ s -> a = b.
Proof.
  revert b. induction a as [|x a IH]; intros [|y b] Heq.
  - done.
  - apply (f_equal String.length) in Heq.
    rewrite append_empty, append_cons in Heq. simpl in Heq.
    rewrite length_append in Heq. lia.
  - apply (f_equal String.length) in Heq.
    rewrite append_empty, append_cons in Heq. simpl in Heq.
    rewrite length_append in Heq. lia.
  - rewrite !append_cons in Heq. injection Heq as -> Heq. f_equal. by apply IH.
Qed.

(** X18. The cache is keyed by the color: two configurations that differ
    in the color (and write numbers alike) use different cache keys for the
    same size and icon, so a call under one color never creates or replaces
    the entry that the other color uses. *)
Theorem getDataURL_keyed_by_color (env env' : Env) (key : string)
    (fontSize : option Number) (s : State) :
  color env <> color env' ->
  numberToString env (nullish_or fontSize 32%float)
    = numberToString env' (nullish_or fontSize 32%float) ->
  cacheKey env fontSize key <> cacheKey env' fontSize key
  /\ dataURLCache (rest (snd (getDataURL env (ByKey key) fontSize s)))
       !! cacheKey env' fontSize key
     = dataURLCache (rest s) !! cacheKey env' fontSize key.
Proof.
  intros Hcolor Hnum.
  assert (Hkeys : cacheKey env fontSize key <> cacheKey env' fontSize key).
  { unfold cacheKey. rewrite Hnum. intros Heq. by apply append_inv_tail in Heq. }
  split; [done|]. unfold getDataURL. cbv zeta.
  destruct (match dataURLCache (rest s) !! _ with Some _ => _ | None => _ end); [done|].
  pose proof (getIconInfo_dataURLCache env key true s) as Hsame.
  destruct (getIconInfo env key true s) as [[[| |info]|e] s2]; simpl in *;
    try (by rewrite Hsame).
  rewrite lookup_insert_ne by done. by rewrite Hsame.
Qed.

Lemma getDataURL_keyed_by_color_witness :
  let red := mkEnv [demoSet] "https://cdn.example" false ∅ "#f00" split_colon
               (fun _ => None) (fun s => s)
               (fun body _ h => mkSVG [("height", h)] body) (fun _ => "32") in
  let s1 := snd (getDataURL demoEnv (ByKey "demo:a") None freshState) in
  dataURLCache (rest s1) !! cacheKey red None "demo:a" = None
  /\ size (dataURLCache (rest (snd (getDataURL red (ByKey "demo:a") None s1)))) = 2%nat.
Proof.
  cbv zeta. split; [|vm_compute; reflexivity].
  destruct (getDataURL_keyed_by_color demoEnv
    (mkEnv [demoSet] "https://cdn.example" false ∅ "#f00" split_colon
       (fun _ => None) (fun s => s)
       (fun body _ h => mkSVG [("height", h)] body) (fun _ => "32"))
    "demo:a" None freshState) as [_ ->]; [discriminate|reflexivity|].
  vm_compute. reflexivity.
Defined.

Lemma concat_space_cons (f : string * string -> string) (l : list (string * string)) :
  forall x, String.concat " " (x :: List.map f l)
            = x ++ fold_right (fun kv acc => (" " ++ f kv) ++ acc) "" l.
Proof.
  induction l as [|kv l IH]; intros x.
  - simpl. by rewrite append_nil_r.
  - change (String.concat " " (x :: List.map f (kv :: l)))
      with (x ++ " " ++ String.concat " " (f kv :: List.map f l)).
    rewrite IH. simpl fold_right. by rewrite append_assoc.
Qed.

(** X19. The document that [pathToSvg] writes always opens with the two
    namespace declarations and [preserveAspectRatio], in that order; then
    come the attributes of the result of [iconToSVG], each as
    [ name="value"], in their order; then the body of that result,
    unchanged, between [>] and [</svg>]. *)
Theorem pathToSvg_shape (env : Env) (info : IconInfo) (fontSize : Number) :
  let result :=
    iconToSVG env (info_body info)
      (mkOptional (info_left info) (info_top info)
         (Some (info_width info)) (Some (info_height info))
         (info_rotate info) (info_hFlip info) (info_vFlip info))
      (numberToString env fontSize ++ "px") in
  pathToSvg env info fontSize =
  svg_open ++ svg_attributes_text (svg_attributes result)
  ++ ">" ++ svg_body result ++ "</svg>".
Proof.
  cbv zeta. unfold pathToSvg. cbv zeta.
  set (result := iconToSVG env _ _ _).
  change (String.concat " " (?a :: ?b :: ?c :: ?l))
    with (a ++ " " ++ b ++ " " ++ String.concat " " (c :: l)).
  rewrite concat_space_cons.
  set (text := fold_right _ "" (svg_attributes result)).
  assert (Htext : text = svg_attributes_text (svg_attributes result)).
  { unfold text, svg_attributes_text. clear.
    induction (svg_attributes result) as [|[k v] l IH]; [done|].
    simpl. by rewrite IH. }
  rewrite <- Htext. generalize text (svg_body result). clear. intros text body.
  rewrite <- !append_assoc. reflexivity.
Qed.

Example pathToSvg_demo :
  exists info s',
    getIconInfo demoEnv "demo:a" true freshState = (Fulfilled (Found info), s')
    /\ pathToSvg demoEnv info 32%float
       = svg_open ++ " height=" ++ dquote ++ "32px" ++ dquote ++ "><path/></svg>".
Proof. eexists _, _. split; vm_compute; reflexivity. Qed.

(** ** The loader does not reject *)

Lemma loadIconSet_fulfilled (env : Env) (id : string) (w : World) :
  exists v, fst (loadIconSet env id w) = Fulfilled v.
Proof.
  unfold loadIconSet. cbv zeta.
  destruct (loadedIconSets (migrateCache w) !! id); [by eexists|].
  destruct (List.find _ (customCollections env)); [by eexists|].
  destruct (loadCache id (migrateCache w)); [by eexists|].
  destruct (fetch env _); by eexists.
Qed.

Lemma LoadIconSet_never_rejected (env : Env) (id : string) (s : State) :
  never_rejected s ->
  (exists v, fst (LoadIconSet env id s) = Fulfilled v)
  /\ never_rejected (snd (LoadIconSet env id s)).
Proof.
  intros Hinv. unfold LoadIconSet.
  destruct (_tasks s !! id) as [p|] eqn:Hp.
  - rewrite (UniqPromise_stored _ _ _ _ Hp). simpl. split; [by eapply Hinv|done].
  - rewrite (UniqPromise_fresh _ _ _ Hp). simpl.
    destruct (loadIconSet_fulfilled env id (rest s)) as [v Hv].
    split; [by eexists|]. intros id' p'. simpl. rewrite lookup_insert.
    case_decide; [intros [= <-]; by eexists|apply Hinv].
Qed.

Lemma getIconInfo_never_rejected (env : Env) (key : string) (allowAliases : bool)
    (s : State) :
  never_rejected s ->
  (exists r, fst (getIconInfo env key allowAliases s) = Fulfilled r)
  /\ never_rejected (snd (getIconInfo env key allowAliases s)).
Proof.
  intros Hinv. unfold getIconInfo.
  destruct (actualKey env key allowAliases) as [ak|]; [|split; [by eexists|done]].
  destruct (parseIcon env ak) as [[collection name]|]; [|split; [by eexists|done]].
  destruct (LoadIconSet_never_rejected env collection s Hinv) as [[v Hv] Hinv'].
  destruct (LoadIconSet env collection s) as [[[data|]|e] s1]; simpl in *;
    [destruct (resolveIconData data name)| |discriminate];
    (split; [by eexists|done]).
Qed.

(** X21. Nothing is thrown at the caller for an icon that cannot be had.
    As long as no stored task is a rejected promise (true of a new process),
    [LoadIconSet], [getIconInfo] and [getDataURL] are always fulfilled,
    whatever the storage and the network do, and they, [deleteTask] and
    [clearCache] leave no rejected task behind. *)
Theorem loader_never_rejects (env : Env) (s : State) :
  never_rejected freshState
  /\ (never_rejected s ->
      (forall id,
         (exists v, fst (LoadIconSet env id s) = Fulfilled v)
         /\ never_rejected (snd (LoadIconSet env id s)))
      /\ (forall key allowAliases,
            (exists r, fst (getIconInfo env key allowAliases s) = Fulfilled r)
            /\ never_rejected (snd (getIconInfo env key allowAliases s)))
      /\ (forall keyOrInfo fontSize,
            (exists url, fst (getDataURL env keyOrInfo fontSize s) = Fulfilled url)
            /\ never_rejected (snd (getDataURL env keyOrInfo fontSize s)))
      /\ (forall id, never_rejected (snd (deleteTask id s)))
      /\ never_rejected (snd (clearCache s))).
Proof.
  split; [intros id p; simpl; by rewrite lookup_empty|].
  intros Hinv. split_and!.
  - intros id. by apply LoadIconSet_never_rejected.
  - intros key allowAliases. by apply getIconInfo_never_rejected.
  - intros keyOrInfo fontSize. unfold getDataURL. cbv zeta.
    destruct (match dataURLCache (rest s) !! _ with Some _ => _ | None => _ end);
      [split; [by eexists|done]|].
    destruct keyOrInfo as [key|info]; [|split; [by eexists|done]].
    destruct (getIconInfo_never_rejected env key true s Hinv) as [[r Hr] Hinv'].
    destruct (getIconInfo env key true s) as [[[| |info]|e] s1]; simpl in *;
      try discriminate; (split; [by eexists|done]).
  - intros id id' p. simpl. rewrite lookup_delete.
    case_decide; [done|apply Hinv].
  - intros id p. rewrite clearCache_resets_tasks. by rewrite lookup_empty.
Qed.

Lemma loader_never_rejects_witness :
  exists url, fst (getDataURL demoEnv (ByKey "gone:a") None freshState) = Fulfilled url.
Proof.
  destruct (loader_never_rejects demoEnv freshState) as [Hfresh Hops].
  destruct (Hops Hfresh) as (_ & _ & Hurl & _).
  exact (proj1 (Hurl (ByKey "gone:a") None)).
Defined.
